(** * playground-elements: tab bars and file-system controls

    A shallow embedding of the active-tab synchronisation of
    [src/internal/tab-bar.ts], of the active-file reconciliation of
    [src/playground-tab-bar.ts] and of the submit gating of
    [src/playground-file-system-controls.ts], followed by the properties
    proved about them.

    DOM elements are objects with identity: they live in a store and are
    referred to by reference, so that the bar's [_active] field, the slots of
    [_tabs] and an event's target may alias one element.  What an operation
    makes observable to the outside (dispatched events, focus, scrolling,
    calls into the project) is appended to a log, oldest entry first. *)

From Stdlib Require Import ZArith Ascii String Bool Lia.
From stdpp Require Import base tactics decidable option numbers strings functions list.

Local Open Scope Z_scope.

(* ===================================================================== *)
(** * [src/internal/tab-bar.ts]: PlaygroundInternalTabBar                  *)
(* ===================================================================== *)

Module TabBar.

(** A reference to a [<playground-internal-tab>] element. *)
Definition tabref := nat.

(** The fields of a tab element the bar reads and writes: the [index] and
    [active] properties, and whether the [active] attribute is present
    ([hasAttribute('active')]), which may not yet mirror the property. *)
Record Tab := mkTab {
  index : Z;
  active : bool;
  attr_active : bool;
}.

(** What the bar and its tabs make observable. *)
Inductive Effect :=
  | TabChange (detail : option tabref)   (* 'tabchange' event, detail.tab *)
  | ScrollIntoView (tab : tabref)
  | Focus (tab : tabref).

Record Bar := mkBar {
  heap : tabref → Tab;             (* the tab elements *)
  _tabs : list tabref;             (* private _tabs *)
  _active : option tabref;         (* private _active; None is undefined *)
  log : list Effect;
}.

Definition with_heap (h : tabref → Tab) (s : Bar) : Bar :=
  mkBar h (_tabs s) (_active s) (log s).
Definition with_tabs (ts : list tabref) (s : Bar) : Bar :=
  mkBar (heap s) ts (_active s) (log s).
Definition with_active (a : option tabref) (s : Bar) : Bar :=
  mkBar (heap s) (_tabs s) a (log s).
Definition emit (e : Effect) (s : Bar) : Bar :=
  mkBar (heap s) (_tabs s) (_active s) (log s ++ [e]).

(** [tab.index = i] *)
Definition tab_set_index (t : tabref) (i : Z) (s : Bar) : Bar :=
  with_heap (alter (λ o, mkTab i (active o) (attr_active o)) t (heap s)) s.

(** Modelled from the spec: the tab element's own [active] property; its
    class, [src/internal/tab.ts], is not among the sources.  Following the
    flow chart in the bar's setter and section 4.1, assigning the flag
    stores it, and a change from false to true makes the tab dispatch a
    bubbling 'tabchange' carrying itself. *)
Definition tab_set_active (t : tabref) (b : bool) (s : Bar) : Bar :=
  let was := active (heap s t) in
  let s' := with_heap (alter (λ o, mkTab (index o) b (attr_active o)) t (heap s)) s in
  if negb was && b then emit (TabChange (Some t)) s' else s'.

(** [set active(tab)] *)
Definition set_active (tab : option tabref) (s : Bar) : Bar :=
  let oldActive := _active s in
  if decide (tab = oldActive) then s
  else
    let s1 := with_active tab s in
    let s2 := match oldActive with
              | Some o => tab_set_active o false s1
              | None => s1
              end in
    match tab with
    | Some t => tab_set_active t true s2
    | None => emit (TabChange None) s2
    end.

(** The same setter, listing the state reached after each of its three
    statements (the assignment to [_active], the clearing of the old tab,
    the setting of the new one or the dispatch); it lists nothing when the
    setter returns early. *)
Definition set_active_steps (tab : option tabref) (s : Bar) : list Bar :=
  let oldActive := _active s in
  if decide (tab = oldActive) then []
  else
    let s1 := with_active tab s in
    let s2 := match oldActive with
              | Some o => tab_set_active o false s1
              | None => s1
              end in
    let s3 := match tab with
              | Some t => tab_set_active t true s2
              | None => emit (TabChange None) s2
              end in
    [s1; s2; s3].

(** A sequence of calls to the setter, and every state it passes through:
    the starting state, then for each call its intermediate states and the
    state it returns. *)
Definition run_calls (calls : list (option tabref)) (s : Bar) : Bar :=
  foldl (λ acc c, set_active c acc) s calls.

Fixpoint instants (calls : list (option tabref)) (s : Bar) : list Bar :=
  match calls with
  | [] => [s]
  | c :: rest =>
      s :: set_active_steps c s ++ instants rest (set_active c s)
  end.

(** The body of the loop of [_onSlotchange], from position [i] on, with
    the local [newActive]. *)
Fixpoint slot_loop (ts : list tabref) (i : Z) (newActive : option tabref)
    (s : Bar) : option tabref * Bar :=
  match ts with
  | [] => (newActive, s)
  | tab :: rest =>
      let s1 := tab_set_index tab i s in
      match newActive with
      | Some _ => slot_loop rest (i + 1) newActive (tab_set_active tab false s1)
      | None =>
          if active (heap s1 tab) || attr_active (heap s1 tab)
          then slot_loop rest (i + 1) (Some tab) s1
          else slot_loop rest (i + 1) None s1
      end
  end.

(** [_onSlotchange(event)]; [assigned] is what the slot's
    [assignedElements()] returns. *)
Definition _onSlotchange (assigned : list tabref) (s : Bar) : Bar :=
  let s0 := with_tabs assigned s in
  let '(newActive, s1) := slot_loop (_tabs s0) 0 None s0 in
  set_active newActive s1.

(** [_activateTab(event)], given what [_findEventTab(event)] resolved. *)
Definition _activateTab (found : option tabref) (s : Bar) : Bar :=
  match found with
  | None => s
  | Some tab =>
      if decide (Some tab = _active s) then s
      else emit (ScrollIntoView tab) (set_active (Some tab) s)
  end.

Inductive Key := ArrowLeft | ArrowRight | OtherKey.

(** How the promise returned by an async handler settles. *)
Inductive Settled := Fulfilled | Rejected.

(** [this._tabs[i]]: undefined outside the array. *)
Definition tab_at (ts : list tabref) (i : Z) : option tabref :=
  if i <? 0 then None else ts !! Z.to_nat i.

(** [this.active?.index ?? 0] *)
Definition oldIdx (s : Bar) : Z :=
  match _active s with
  | Some a => index (heap s a)
  | None => 0
  end.

(** The index [_onKeydown] computes from the key. *)
Definition newIdx (key : Key) (s : Bar) : Z :=
  let old := oldIdx s in
  match key with
  | ArrowLeft => if 0 <? old then old - 1 else old
  | ArrowRight => if old <? Z.of_nat (length (_tabs s)) - 1 then old + 1 else old
  | OtherKey => old
  end.

(** [async _onKeydown(event)].  Reading [updateComplete] of an undefined
    [tab] throws, which rejects the handler's promise after the setter
    has run. *)
Definition _onKeydown (key : Key) (s : Bar) : Bar * Settled :=
  let old := oldIdx s in
  let new := newIdx key s in
  if decide (new = old) then (s, Fulfilled)
  else
    let tab := tab_at (_tabs s) new in
    let s1 := set_active tab s in
    match tab with
    | Some t => (emit (Focus t) s1, Fulfilled)
    | None => (s1, Rejected)
    end.

(** The tabs of the bar whose flag is set. *)
Definition active_items (s : Bar) : list tabref :=
  filter (λ r, active (heap s r) = true) (_tabs s).

(** The 'tabchange' events in a log. *)
Definition tabchanges (l : list Effect) : list (option tabref) :=
  omap (λ e, match e with TabChange d => Some d | _ => None end) l.

(** Whether a tab claims to be active, by property or by attribute. *)
Definition claims_active (s : Bar) (r : tabref) : bool :=
  active (heap s r) || attr_active (heap s r).

(** The first of [items] that claims to be active in [s], if any. *)
Definition first_claimant (s : Bar) (items : list tabref) : option tabref :=
  snd <$> list_find (λ r, claims_active s r = true) items.

(** [lo] if [x] is below it, [hi] if [x] is above it, else [x]. *)
Definition clamp (lo hi x : Z) : Z := Z.max lo (Z.min hi x).

(** Among the bar's tabs, only [o] may carry the flag (none, when [o] is
    undefined). *)
Definition flags_within (o : option tabref) (s : Bar) : Prop :=
  ∀ r, r ∈ _tabs s → active (heap s r) = true → o = Some r.

(** Only the bar's active tab carries the flag, among the bar's tabs. *)
Definition synced (s : Bar) : Prop := flags_within (_active s) s.

(** At most one of the bar's tabs carries the flag. *)
Definition single_active (s : Bar) : Prop := (length (active_items s) ≤ 1)%nat.

(** A bar of three fresh tabs, none active, for the examples. *)
Definition fresh_tab : Tab := mkTab 0 false false.
Definition three_tabs : Bar := mkBar (λ _, fresh_tab) [0; 1; 2]%nat None [].

(** A bar that has not seen its tabs yet; tabs 1 and 2 carry the [active]
    attribute, and every tab still has a stale index. *)
Definition marked_tabs : Bar :=
  mkBar (λ r, mkTab 7 false (bool_decide (r = 1%nat ∨ r = 2%nat))) [] None [].

(** ** Events and their paths *)

(** An entry of an event's composed path: an element with its [localName],
    or a node without one (a shadow root, the document, the window).
    [node_ref] is the identity of the node; for a tab element it is the
    reference the bar uses for it. *)
Record Node := mkNode {
  localName : option string;
  node_ref : tabref;
}.

(** The [target] and [composedPath()] of an event. *)
Record DomEvent := mkEvent {
  target : option Node;
  composedPath : list Node;
}.

Definition tab_tag : string := "playground-internal-tab".

(** [_findEventTab(event)] *)
Definition _findEventTab (e : DomEvent) : option Node :=
  if decide (target e ≫= localName = Some tab_tag) then target e
  else snd <$> list_find (λ el, localName el = Some tab_tag) (composedPath e).

(** [_activateTab(event)], from the event itself. *)
Definition _activateTab_event (e : DomEvent) (s : Bar) : Bar :=
  _activateTab (node_ref <$> _findEventTab e) s.

(** ** Sequences of key presses *)

(** The state a key press leaves, and the state a sequence of presses
    leaves, each handler running to its end before the next key. *)
Definition press (key : Key) (s : Bar) : Bar := (_onKeydown key s).1.

Definition presses (keys : list Key) (s : Bar) : Bar :=
  foldl (λ acc k, press k acc) s keys.

(** ** The shape [_onSlotchange] gives the bar *)

(** Every tab of the bar carries its position as index. *)
Definition indexed (s : Bar) : Prop :=
  ∀ (i : nat) r, _tabs s !! i = Some r → index (heap s r) = Z.of_nat i.

(** The active tab, if any, is one of the bar's tabs. *)
Definition active_listed (s : Bar) : Prop :=
  ∀ a, _active s = Some a → a ∈ _tabs s.

(** The active tab, if any, carries the flag. *)
Definition active_flagged (s : Bar) : Prop :=
  ∀ a, _active s = Some a → active (heap s a) = true.

Definition well_formed (s : Bar) : Prop :=
  NoDup (_tabs s) ∧ indexed s ∧ active_listed s ∧ synced s.

(** How the handlers of a sequence of presses settle. *)
Fixpoint outcomes (keys : list Key) (s : Bar) : list Settled :=
  match keys with
  | [] => []
  | k :: rest => (_onKeydown k s).2 :: outcomes rest (press k s)
  end.

(** A counter over the positions of [n] tabs that stops at both ends. *)
Definition step_index (n : Z) (i : Z) (key : Key) : Z :=
  match key with
  | ArrowLeft => Z.max 0 (i - 1)
  | ArrowRight => Z.min (Z.max 0 (n - 1)) (i + 1)
  | OtherKey => i
  end.

(** A click inside the label of tab 2: the target is a [span], the path
    leads through the tab to the bar's shadow root. *)
Definition click_in_tab_2 : DomEvent :=
  mkEvent (Some (mkNode (Some "span") 40%nat))
    [mkNode (Some "span") 40%nat; mkNode (Some tab_tag) 2%nat;
     mkNode (Some "slot") 41%nat; mkNode None 42%nat].

(** Three tabs indexed by position, the first one active. *)
Definition first_active : Bar :=
  mkBar (λ r, mkTab (Z.of_nat r) (bool_decide (r = 0%nat)) false)
    [0; 1; 2]%nat (Some 0%nat) [].

End TabBar.

(* ===================================================================== *)
(** * [src/playground-tab-bar.ts]: PlaygroundTabBar                        *)
(* ===================================================================== *)

Module FileTabBar.

(** An entry of the project's file list; an absent [label] or [hidden] is
    the empty string or false. *)
Record File := mkFile {
  name : string;
  label : string;
  hidden : bool;
}.

Record State := mkState {
  _project : option (list File);   (* this._project?.files *)
  _activeFileName : string;
  _activeFileIndex : Z;
}.

Definition with_name (n : string) (s : State) : State :=
  mkState (_project s) n (_activeFileIndex s).
Definition with_index (i : Z) (s : State) : State :=
  mkState (_project s) (_activeFileName s) i.
Definition with_project (p : option (list File)) (s : State) : State :=
  mkState p (_activeFileName s) (_activeFileIndex s).

(** [get _visibleFiles()] *)
Definition _visibleFiles (s : State) : list File :=
  filter (λ f, hidden f = false) (default [] (_project s)).

(** [Array.prototype.findIndex] with the predicate [file.name === n]. *)
Definition findIndex (n : string) (l : list File) : Z :=
  match list_find (λ f, name f = n) l with
  | Some (i, _) => Z.of_nat i
  | None => -1
  end.

(** [_onTabActivated(event)] with [event.detail.name = filename]. *)
Definition _onTabActivated (filename : string) (s : State) : State :=
  if decide (filename = _activeFileName s) then s
  else with_index (findIndex filename (_visibleFiles s)) (with_name filename s).

(** The first block of [_setNewActiveFile]: the position of the active
    name among the visible files, when the name is non-empty and found. *)
Definition same_name_index (s : State) : option Z :=
  if decide (_activeFileName s = "") then None
  else
    let index := findIndex (_activeFileName s) (_visibleFiles s) in
    if 0 <=? index then Some index else None.

(** The loop [for (let i = ...; i >= 0; i--)] from a non-negative [i]:
    the position and the file at which it returns, if it does. *)
Fixpoint scan_from (vis : list File) (i : nat) {struct i} : option (nat * File) :=
  let further := match i with O => None | S j => scan_from vis j end in
  match vis !! i with
  | Some file => if negb (hidden file) then Some (i, file) else further
  | None => further
  end.

Definition scan_left (vis : list File) (start : Z) : option (nat * File) :=
  if start <? 0 then None else scan_from vis (Z.to_nat start).

(** [_setNewActiveFile()] *)
Definition _setNewActiveFile (s : State) : State :=
  match same_name_index s with
  | Some index => with_index index s
  | None =>
      match scan_left (_visibleFiles s) (_activeFileIndex s) with
      | Some (_, file) => with_name (name file) s
      | None => with_name "" (with_index 0 s)
      end
  end.

(** The entry the backward scan stops at: position [k], at or left of
    [start], holds the shown file [f], and no position between [k]
    (excluded) and [start] (included) holds a shown file. *)
Definition first_shown_at (vis : list File) (start : Z) (k : nat) (f : File) : Prop :=
  Z.of_nat k ≤ start ∧ vis !! k = Some f ∧ hidden f = false ∧
  ∀ (j : nat) g, (k < j)%nat → Z.of_nat j ≤ start → vis !! j = Some g → hidden g = true.

(** The backward scan stops nowhere. *)
Definition none_shown_upto (vis : list File) (start : Z) : Prop :=
  ∀ (j : nat) g, Z.of_nat j ≤ start → vis !! j = Some g → hidden g = true.

(** [_onProjectFilesChanged]: the project now lists [files]. *)
Definition _onProjectFilesChanged (files : list File) (s : State) : State :=
  _setNewActiveFile (with_project (Some files) s).

(** [_onNewFile(event)] with [event.detail.filename = filename]. *)
Definition _onNewFile (filename : string) (s : State) : State :=
  with_name filename s.

(** The active name and index agree with the visible files: nothing is
    visible and the state says so, or the stored index is the position of
    a visible file that carries the active name. *)
Definition consistent (s : State) : Prop :=
  (_visibleFiles s = [] ∧ _activeFileName s = "" ∧ _activeFileIndex s = 0) ∨
  (∃ f, 0 ≤ _activeFileIndex s ∧
        _visibleFiles s !! Z.to_nat (_activeFileIndex s) = Some f ∧
        name f = _activeFileName s).

(** A hidden file, for the examples. *)
Definition secret_js : File := mkFile "secret.js" "" true.

(** The files of the examples. *)
Definition a_js : File := mkFile "a.js" "" false.
Definition b_js : File := mkFile "b.js" "" false.
Definition c_js : File := mkFile "c.js" "" false.

End FileTabBar.

(* ===================================================================== *)
(** * [src/playground-file-system-controls.ts]                            *)
(* ===================================================================== *)

Module Controls.

(** The [state] property. *)
Inductive Kind := closed | menu | rename | newfile.

#[global] Instance Kind_eq_dec : EqDecision Kind.
Proof. solve_decision. Defined.

(** The project collaborator, as far as the controls use it;
    [playground-project.ts] is not among the sources, so the filename
    check is whatever the connected project answers. *)
Record Project := mkProject {
  isValidNewFilename : string → bool;
}.

(** The click listener a template binds to its submit button. *)
Inductive Submit := SubmitRename | SubmitNewFile.

(** The rendered rename or new-file form: which template produced it, the
    [.filename-input] element's value, the value last committed by the
    rename template's [.value] binding, and the [.submit-button]. *)
Record Form := mkForm {
  template : Kind;
  input_value : string;
  bound_value : string;
  disabled : bool;
  onclick : Submit;
}.

Inductive Effect :=
  | PreventDefault
  | SurfaceClose                          (* this._surface.close() *)
  | RenameFile (oldName newName : string) (* this._project.renameFile *)
  | AddFile (filename : string)           (* this._project.addFile *)
  | NewFileEvent (filename : string).     (* 'newFile' event *)

Record Controls := mkControls {
  state : Kind;
  filename : option string;
  _project : option Project;
  form : option Form;
  log : list Effect;
}.

Definition emit (e : Effect) (s : Controls) : Controls :=
  mkControls (state s) (filename s) (_project s) (form s) (log s ++ [e]).
Definition with_form (f : option Form) (s : Controls) : Controls :=
  mkControls (state s) (filename s) (_project s) f (log s).
Definition with_state (k : Kind) (s : Controls) : Controls :=
  mkControls k (filename s) (_project s) (form s) (log s).

(** [@query('.filename-input')] and [@query('.submit-button')]: the
    input's value and the button's [disabled], when the elements exist. *)
Definition _filenameInput (s : Controls) : option string :=
  input_value <$> form s.
Definition _submitButton_disabled (s : Controls) : option bool :=
  disabled <$> form s.

(** [get _filenameInputValid()] *)
Definition _filenameInputValid (s : Controls) : bool :=
  match _project s, _filenameInput s with
  | Some p, Some v => isValidNewFilename p v
  | _, _ => false
  end.

(** JavaScript truthiness of an optional string. *)
Definition truthy (o : option string) : bool :=
  match o with
  | Some v => negb (String.eqb v "")
  | None => false
  end.

(** [_onSubmitRename()] *)
Definition _onSubmitRename (s : Controls) : Controls :=
  let s1 := emit SurfaceClose s in
  match _project s1, filename s1, _filenameInput s1 with
  | Some _, Some oldFilename, Some newFilename =>
      if truthy (Some oldFilename) && truthy (Some newFilename)
      then emit (RenameFile oldFilename newFilename) s1
      else s1
  | _, _, _ => s1
  end.

(** [_onSubmitNewFile()] *)
Definition _onSubmitNewFile (s : Controls) : Controls :=
  let s1 := emit SurfaceClose s in
  match _project s1, _filenameInput s1 with
  | Some _, Some fname =>
      if truthy (Some fname)
      then emit (NewFileEvent fname) (emit (AddFile fname) s1)
      else s1
  | _, _ => s1
  end.

(** [this._submitButton.click()] on an enabled button: the listener the
    template bound runs. *)
Definition click (s : Controls) : Controls :=
  match form s with
  | Some f =>
      match onclick f with
      | SubmitRename => _onSubmitRename s
      | SubmitNewFile => _onSubmitNewFile s
      end
  | None => s
  end.

(** [_onFilenameInputKeydown(event)]; [enter] is [event.key === 'Enter']. *)
Definition _onFilenameInputKeydown (enter : bool) (s : Controls) : Controls :=
  if enter && bool_decide (_submitButton_disabled s = Some false)
  then click (emit PreventDefault s)
  else s.

(** [_onSurfaceClosed()] *)
Definition _onSurfaceClosed (s : Controls) : Controls := with_state closed s.

(** What [render()] leaves in the surface.  The getters [_rename] and
    [_newFile] evaluate [!this._filenameInputValid] against the elements
    rendered so far; a template rendered again keeps its input element,
    whose value is assigned only when the bound expression changed. *)
Definition filename_or_empty (s : Controls) : string :=
  if truthy (filename s) then default "" (filename s) else "".

Definition render (s : Controls) : Controls :=
  let dis := negb (_filenameInputValid s) in
  match state s with
  | closed | menu => with_form None s
  | rename =>
      let v := filename_or_empty s in   (* this.filename || '' *)
      match form s with
      | Some f =>
          if decide (template f = rename)
          then with_form (Some (mkForm rename
                 (if decide (bound_value f = v) then input_value f else v)
                 v dis SubmitRename)) s
          else with_form (Some (mkForm rename v v dis SubmitRename)) s
      | None => with_form (Some (mkForm rename v v dis SubmitRename)) s
      end
  | newfile =>
      match form s with
      | Some f =>
          if decide (template f = newfile)
          then with_form (Some (mkForm newfile (input_value f) "" dis SubmitNewFile)) s
          else with_form (Some (mkForm newfile "" "" dis SubmitNewFile)) s
      | None => with_form (Some (mkForm newfile "" "" dis SubmitNewFile)) s
      end
  end.

(** The user edits the filename input to [v]: the element's value changes,
    the 'input' event runs [_onFilenameInputChange], whose
    [requestUpdate()] renders again. *)
Definition _onFilenameInputChange (s : Controls) : Controls := render s.

Definition input_event (v : string) (s : Controls) : Controls :=
  match form s with
  | Some f =>
      _onFilenameInputChange
        (with_form (Some (mkForm (template f) v (bound_value f) (disabled f) (onclick f))) s)
  | None => s
  end.

Definition with_filename (f : option string) (s : Controls) : Controls :=
  mkControls (state s) f (_project s) (form s) (log s).

(** [_onMenuSelectRename()] *)
Definition _onMenuSelectRename (s : Controls) : Controls := with_state rename s.

(** [_onClickCancel()] *)
Definition _onClickCancel (s : Controls) : Controls := emit SurfaceClose s.

(** [value.lastIndexOf(c)] for a search string of one code unit [c]: the
    position of the last [c] in [value], or -1.  [i] is the position of
    the head of what is left to read, [found] the last position seen. *)
Fixpoint lastIndexOf_from (c : ascii) (value : string) (i found : Z) : Z :=
  match value with
  | EmptyString => found
  | String a rest =>
      lastIndexOf_from c rest (i + 1) (if Ascii.eqb a c then i else found)
  end.

Definition lastIndexOf (c : ascii) (value : string) : Z :=
  lastIndexOf_from c value 0 (-1).

(** What [updated()] does to the page. *)
Inductive UiEffect :=
  | FocusFirstMenuItem
  | FocusInput
  | SetSelectionRange (first last : Z).

(** The controls with the rest of what [update] and [updated] use: the
    flag [_postStateChangeRenderDone], whether the rendered surface holds
    the menu list (and so its first item), and what was done to the
    page. *)
Record Host := mkHost {
  ctl : Controls;
  _postStateChangeRenderDone : bool;
  menu_shown : bool;
  ui : list UiEffect;
}.

(** [update(changedProperties)]; [state_changed] is
    [changedProperties.has('state')].  The inherited [update] renders. *)
Definition update (state_changed : bool) (h : Host) : Host :=
  mkHost (render (ctl h))
    (if state_changed then false else _postStateChangeRenderDone h)
    (bool_decide (state (ctl h) = menu))
    (ui h).

(** [async updated()], run to its end. *)
Definition updated (h : Host) : Host :=
  if _postStateChangeRenderDone h then h
  else
    let done := match state (ctl h) with
      | menu => if menu_shown h then [FocusFirstMenuItem] else []
      | rename =>
          match _filenameInput (ctl h) with
          | Some value =>
              [FocusInput; SetSelectionRange 0 (lastIndexOf "." value)]
          | None => []
          end
      | newfile =>
          match _filenameInput (ctl h) with
          | Some _ => [FocusInput]
          | None => []
          end
      | closed => []
      end in
    mkHost (ctl h) true (menu_shown h) (ui h ++ done).

(** The controls as the tab bar's menu button leaves them for "foo.html",
    shown. *)
Definition menu_on_foo : Host :=
  mkHost (mkControls menu (Some "foo.html") None None []) true true [].


(** A project for the examples: it accepts any non-empty name other than
    "a.js". *)
Definition example_project : Project :=
  mkProject (λ v, negb (String.eqb v "") && negb (String.eqb v "a.js")).

(** The new-file controls as the tab bar's add button opens them. *)
Definition opened_newfile : Controls :=
  mkControls newfile None (Some example_project) None [].

End Controls.

(* ===================================================================== *)
(** * [src/playground-tab-bar.ts]: the buttons that open the controls      *)
(* ===================================================================== *)

Module FileMenu.

(** The tab bar's [_fileSystemControls], when the element is rendered:
    the controls and their [anchorElement]. *)
Record Handle := mkHandle {
  controls : Controls.Controls;
  anchorElement : option nat;
}.

(** How a click handler ends. *)
Inductive Completion := Normal | Throws.

(** What a click handler leaves: the controls, whether
    [event.stopPropagation()] ran, and how the handler ended. *)
Record Clicked := mkClicked {
  handle : option Handle;
  stopped : bool;
  completion : Completion;
}.

(** [_onClickAddFile(event)]; [button] is [event.target]. *)
Definition _onClickAddFile (button : nat) (h : option Handle) : Clicked :=
  match h with
  | None => mkClicked None true Normal
  | Some c =>
      mkClicked
        (Some (mkHandle (Controls.with_state Controls.newfile (controls c))
                 (Some button)))
        true Normal
  end.

(** [_onClickMenuButton(event)]; [button] is [event.target] and [panel]
    the [panel] of the tab it sits in.  Reading [name] of a missing entry
    of the visible files throws, after [state] has been assigned. *)
Definition _onClickMenuButton (button : nat) (panel : string)
    (s : FileTabBar.State) (h : option Handle) : Clicked :=
  match h with
  | None => mkClicked None false Normal
  | Some c =>
      let fileIndex := FileTabBar.findIndex panel (FileTabBar._visibleFiles s) in
      let c1 := Controls.with_state Controls.menu (controls c) in
      match (if fileIndex <? 0 then None
             else FileTabBar._visibleFiles s !! Z.to_nat fileIndex) with
      | Some file =>
          mkClicked
            (Some (mkHandle
                     (Controls.with_filename (Some (FileTabBar.name file)) c1)
                     (Some button)))
            true Normal
      | None => mkClicked (Some (mkHandle c1 (anchorElement c))) false Throws
      end
  end.

End FileMenu.

(* ===================================================================== *)
(** * Active-file reconciliation                                          *)
(* ===================================================================== *)

Module FileTabBarFacts.
Import FileTabBar.

(** ** [findIndex] *)

Lemma findIndex_found n (l : list File) (k : nat) f :
  l !! k = Some f → name f = n →
  (∀ (j : nat) g, (j < k)%nat → l !! j = Some g → name g ≠ n) →
  findIndex n l = Z.of_nat k.
Proof.
  intros Hk Hn Hfirst. unfold findIndex.
  assert (list_find (λ f, name f = n) l = Some (k, f)) as ->; [|done].
  apply list_find_Some. split_and!; [done..|].
  intros j g Hj Hlt. by eapply Hfirst.
Qed.

Lemma findIndex_missing n (l : list File) :
  (∀ f, f ∈ l → name f ≠ n) → findIndex n l = -1.
Proof.
  intros Hno. unfold findIndex.
  assert (list_find (λ f, name f = n) l = None) as ->; [|done].
  apply list_find_None, list.Forall_forall. intros f Hf. by apply Hno.
Qed.

Lemma findIndex_range n (l : list File) :
  -1 ≤ findIndex n l < Z.of_nat (length l).
Proof.
  unfold findIndex. destruct (list_find _ l) as [[i f]|] eqn:E; [|lia].
  apply list_find_Some in E as (Hi & _). apply lookup_lt_Some in Hi. lia.
Qed.

Lemma findIndex_nonneg_inv n (l : list File) :
  0 ≤ findIndex n l →
  ∃ f, l !! Z.to_nat (findIndex n l) = Some f ∧ name f = n.
Proof.
  unfold findIndex. destruct (list_find _ l) as [[i f]|] eqn:E; [|lia].
  intros _. apply list_find_Some in E as (Hi & Hn & _).
  exists f. by rewrite Nat2Z.id.
Qed.

(** ** The visible files *)

Lemma visible_shown s f : f ∈ _visibleFiles s → hidden f = false.
Proof. unfold _visibleFiles. by intros [? _]%list_elem_of_filter. Qed.

Lemma visible_lookup_shown s (k : nat) f :
  _visibleFiles s !! k = Some f → hidden f = false.
Proof. intros H. eapply visible_shown, list_elem_of_lookup_2, H. Qed.

Lemma visible_all_shown (l : list File) s :
  _project s = Some l → Forall (λ x, hidden x = false) l → _visibleFiles s = l.
Proof.
  unfold _visibleFiles. intros -> Hall. simpl.
  induction Hall as [|x l Hx _ IH]; [done|].
  by rewrite filter_cons_True, IH.
Qed.

Lemma visible_nil_no_project s : _project s = None → _visibleFiles s = [].
Proof. unfold _visibleFiles. by intros ->. Qed.

(** ** The first block: staying on the same name *)

Lemma same_name_index_Some s (k : nat) f :
  _activeFileName s ≠ "" →
  _visibleFiles s !! k = Some f → name f = _activeFileName s →
  (∀ (j : nat) g, (j < k)%nat → _visibleFiles s !! j = Some g →
     name g ≠ _activeFileName s) →
  same_name_index s = Some (Z.of_nat k).
Proof.
  intros Hne Hk Hn Hfirst. unfold same_name_index.
  rewrite decide_False by done.
  rewrite (findIndex_found _ _ k f) by done.
  destruct (Z.leb_spec 0 (Z.of_nat k)); [done|lia].
Qed.

Lemma same_name_index_None s :
  same_name_index s = None ↔
  _activeFileName s = "" ∨ ∀ f, f ∈ _visibleFiles s → name f ≠ _activeFileName s.
Proof.
  unfold same_name_index. split.
  - case_decide as Hn; [by left|].
    destruct (Z.leb_spec 0 (findIndex (_activeFileName s) (_visibleFiles s)))
      as [Hge|Hlt]; [done|].
    intros _. right. intros f Hf Hname.
    unfold findIndex in Hlt.
    destruct (list_find _ _) as [[i g]|] eqn:E; [lia|].
    rewrite list_find_None, list.Forall_forall in E. by apply (E f).
  - intros [Hempty|Hno].
    + by rewrite decide_True.
    + case_decide; [done|]. by rewrite findIndex_missing.
Qed.

Lemma same_name_index_nil s : _visibleFiles s = [] → same_name_index s = None.
Proof.
  intros Hnil. apply same_name_index_None. right. rewrite Hnil.
  intros f Hf. by apply not_elem_of_nil in Hf.
Qed.

(** ** The backward scan *)

Lemma scan_from_first (vis : list File) (i k : nat) f :
  (k ≤ i)%nat → vis !! k = Some f → hidden f = false →
  (∀ (j : nat) g, (k < j ≤ i)%nat → vis !! j = Some g → hidden g = true) →
  scan_from vis i = Some (k, f).
Proof.
  induction i as [|i IH]; intros Hle Hk Hf Hskip.
  - assert (k = 0%nat) as -> by lia. simpl. by rewrite Hk, Hf.
  - destruct (decide (k = S i)) as [->|Hne].
    + simpl. by rewrite Hk, Hf.
    + assert (scan_from vis i = Some (k, f)) as Hrec.
      { apply IH; [lia|done..|]. intros j g ?. apply Hskip. lia. }
      simpl. destruct (vis !! S i) as [g|] eqn:Eg; [|done].
      rewrite (Hskip (S i) g) by (done || lia). done.
Qed.

Lemma scan_from_none (vis : list File) (i : nat) :
  (∀ (j : nat) g, (j ≤ i)%nat → vis !! j = Some g → hidden g = true) →
  scan_from vis i = None.
Proof.
  induction i as [|i IH]; intros Hskip.
  - simpl. destruct (vis !! 0%nat) as [g|] eqn:Eg; [|done].
    by rewrite (Hskip 0%nat g).
  - assert (scan_from vis i = None) as Hrec.
    { apply IH. intros j g ?. apply Hskip. lia. }
    simpl. destruct (vis !! S i) as [g|] eqn:Eg; [|done].
    by rewrite (Hskip (S i) g).
Qed.

Lemma scan_left_first (vis : list File) start (k : nat) f :
  first_shown_at vis start k f → scan_left vis start = Some (k, f).
Proof.
  intros (Hle & Hk & Hf & Hskip). unfold scan_left.
  destruct (Z.ltb_spec start 0); [lia|].
  apply scan_from_first; [lia|done..|].
  intros j g ?. apply Hskip; lia.
Qed.

Lemma scan_left_none (vis : list File) start :
  none_shown_upto vis start → scan_left vis start = None.
Proof.
  intros Hskip. unfold scan_left.
  destruct (Z.ltb_spec start 0); [done|].
  apply scan_from_none. intros j g ?. apply Hskip. lia.
Qed.

Lemma none_shown_nil start : none_shown_upto [] start.
Proof. by intros j g _ ?. Qed.

Lemma findIndex_le n (l : list File) (k : nat) f :
  l !! k = Some f → name f = n → 0 ≤ findIndex n l ≤ Z.of_nat k.
Proof.
  intros Hk Hn. unfold findIndex.
  destruct (list_find (λ f, name f = n) l) as [[i g]|] eqn:E.
  - apply list_find_Some in E as (_ & _ & Hfirst).
    destruct (decide (i ≤ k)%nat); [lia|].
    exfalso. apply (Hfirst k f); [done|lia|done].
  - rewrite list_find_None, list.Forall_forall in E.
    exfalso. apply (E f); [|done]. by eapply list_elem_of_lookup_2.
Qed.

(** Deleting the active file [f] from the shown files [pre ++ f :: g :: post]
    leaves [g] at the position [f] had, and reconciliation activates [g],
    whatever [pre] is. *)
Lemma delete_activates_successor (pre post : list File) f g s :
  Forall (λ x, hidden x = false ∧ name x ≠ name f) (pre ++ g :: post) →
  _activeFileName s = name f →
  _activeFileIndex s = Z.of_nat (length pre) →
  _activeFileName (_onProjectFilesChanged (pre ++ g :: post) s) = name g.
Proof.
  intros Hall Hname Hidx.
  unfold _onProjectFilesChanged, _setNewActiveFile.
  set (s1 := with_project (Some (pre ++ g :: post)) s).
  assert (_visibleFiles s1 = pre ++ g :: post) as Hvis.
  { apply visible_all_shown; [done|].
    apply list.Forall_forall. intros x Hx.
    rewrite list.Forall_forall in Hall. by apply Hall. }
  assert (same_name_index s1 = None) as ->.
  { apply same_name_index_None. right. rewrite Hvis. simpl. rewrite Hname.
    intros x Hx. rewrite list.Forall_forall in Hall. by apply Hall. }
  rewrite Hvis. simpl. rewrite Hidx.
  rewrite (scan_left_first _ _ (length pre) g); [done|].
  assert ((pre ++ g :: post) !! length pre = Some g) as Hg.
  { by rewrite lookup_app_r, Nat.sub_diag. }
  split_and!; [lia|done| |].
  - rewrite list.Forall_forall in Hall. apply Hall.
    by eapply list_elem_of_lookup_2.
  - intros j h ? ?. lia.
Qed.

(** Deleting the active file when it was the last shown one activates its
    left neighbour [p]. *)
Lemma delete_last_activates_predecessor (pre : list File) f p s :
  Forall (λ x, hidden x = false ∧ name x ≠ name f) (pre ++ [p]) →
  _activeFileName s = name f →
  _activeFileIndex s = Z.of_nat (length pre) + 1 →
  _activeFileName (_onProjectFilesChanged (pre ++ [p]) s) = name p.
Proof.
  intros Hall Hname Hidx.
  unfold _onProjectFilesChanged, _setNewActiveFile.
  set (s1 := with_project (Some (pre ++ [p])) s).
  assert (_visibleFiles s1 = pre ++ [p]) as Hvis.
  { apply visible_all_shown; [done|].
    apply list.Forall_forall. intros x Hx.
    rewrite list.Forall_forall in Hall. by apply Hall. }
  assert (same_name_index s1 = None) as ->.
  { apply same_name_index_None. right. rewrite Hvis. simpl. rewrite Hname.
    intros x Hx. rewrite list.Forall_forall in Hall. by apply Hall. }
  rewrite Hvis. simpl. rewrite Hidx.
  rewrite (scan_left_first _ _ (length pre) p); [done|].
  assert ((pre ++ [p]) !! length pre = Some p) as Hp.
  { by rewrite lookup_app_r, Nat.sub_diag. }
  split_and!; [lia|done| |].
  - rewrite list.Forall_forall in Hall. apply Hall.
    by eapply list_elem_of_lookup_2.
  - intros j h Hlt Hle Hj. apply lookup_lt_Some in Hj.
    rewrite length_app in Hj. simpl in Hj. lia.
Qed.

(** ** The claims *)

(** C1, as the claim states it, fails: with "b.js" active at index 1 of
    [a.js, b.js, c.js], removing b.js leaves [a.js, c.js]; the scan starts
    at index 1, where c.js now is, so "c.js" becomes active and not
    "a.js". *)
Lemma delete_middle_activates_successor_not_predecessor :
  let before := mkState (Some [a_js; b_js; c_js]) "b.js" 1 in
  let after := _onProjectFilesChanged [a_js; c_js] before in
  _setNewActiveFile before = before ∧
  _visibleFiles after = [a_js; c_js] ∧
  _activeFileName after = "c.js" ∧
  _activeFileName after ≠ "a.js".
Proof. vm_compute. split_and!; done. Qed.

(** C1 (amended): when the previously active filename is not kept (it is
    empty or no longer among the visible files), the scan goes backward
    from the previous active index, inclusive, toward 0, and the first
    shown entry it finds becomes active.  That entry is the one now at the
    previous index whenever the visible list has one there, and an entry
    to the left only when nothing is at the previous index.  In
    particular, when the active file stood between [pre] and [g] and was
    deleted, so that the visible files now are [pre ++ g :: post], its
    successor [g] becomes active, whether or not it had a predecessor. *)
Theorem reconcile_scans_from_previous_index s (k : nat) f pre g post :
  same_name_index s = None →
  first_shown_at (_visibleFiles s) (_activeFileIndex s) k f →
  _activeFileName (_setNewActiveFile s) = name f ∧
  (is_Some (_visibleFiles s !! Z.to_nat (_activeFileIndex s))
     ↔ Z.of_nat k = _activeFileIndex s) ∧
  (_visibleFiles s = pre ++ g :: post →
   _activeFileIndex s = Z.of_nat (length pre) →
   f = g ∧ _activeFileName (_setNewActiveFile s) = name g).
Proof.
  intros Hgone Hfirst.
  assert (_activeFileName (_setNewActiveFile s) = name f) as Hname.
  { unfold _setNewActiveFile. by rewrite Hgone, (scan_left_first _ _ k f). }
  destruct Hfirst as (Hle & Hk & Hf & Hskip).
  assert (is_Some (_visibleFiles s !! Z.to_nat (_activeFileIndex s))
            → Z.of_nat k = _activeFileIndex s) as Hthere.
  { intros [h Hh].
    destruct (decide (Z.of_nat k = _activeFileIndex s)) as [|Hne]; [done|].
    exfalso.
    assert (hidden h = true) as Hhid.
    { apply (Hskip (Z.to_nat (_activeFileIndex s)) h); [lia|lia|done]. }
    apply visible_lookup_shown in Hh. congruence. }
  split_and!; [done| |].
  - split; [done|]. intros <-. rewrite Nat2Z.id. by exists f.
  - intros Hvis Hidx.
    assert (_visibleFiles s !! length pre = Some g) as Hg.
    { by rewrite Hvis, lookup_app_r, Nat.sub_diag. }
    assert (k = length pre) as ->.
    { apply Nat2Z.inj. rewrite <-Hidx. apply Hthere.
      rewrite Hidx, Nat2Z.id. by exists g. }
    assert (f = g) as -> by congruence. done.
Qed.

Lemma reconcile_scans_from_previous_index_witness :
  let s := mkState (Some [a_js; c_js]) "b.js" 1 in
  _activeFileName (_setNewActiveFile s) = "c.js" ∧
  (is_Some (_visibleFiles s !! Z.to_nat (_activeFileIndex s))
     ↔ Z.of_nat 1 = _activeFileIndex s) ∧
  (_visibleFiles s = [a_js] ++ c_js :: [] →
   _activeFileIndex s = Z.of_nat (length [a_js]) →
   c_js = c_js ∧ _activeFileName (_setNewActiveFile s) = "c.js").
Proof.
  intros s.
  apply (reconcile_scans_from_previous_index s 1%nat c_js [a_js] c_js []).
  - reflexivity.
  - unfold first_shown_at. simpl. split_and!; [lia|reflexivity|reflexivity|].
    intros j g Hlt Hle. lia.
Defined.

(** C5: a non-empty previously active filename that is still among the
    visible files stays active; only the stored index changes, to the
    position of that file in the visible list. *)
Theorem reconcile_keeps_same_name s (k : nat) f :
  _activeFileName s ≠ "" →
  _visibleFiles s !! k = Some f →
  name f = _activeFileName s →
  (∀ (j : nat) g, (j < k)%nat → _visibleFiles s !! j = Some g →
     name g ≠ _activeFileName s) →
  _setNewActiveFile s = with_index (Z.of_nat k) s ∧
  _activeFileName (_setNewActiveFile s) = _activeFileName s ∧
  _activeFileIndex (_setNewActiveFile s) = Z.of_nat k ∧
  _project (_setNewActiveFile s) = _project s.
Proof.
  intros Hne Hk Hn Hfirst.
  assert (_setNewActiveFile s = with_index (Z.of_nat k) s) as ->; [|done].
  unfold _setNewActiveFile. by rewrite (same_name_index_Some s k f).
Qed.

Lemma reconcile_keeps_same_name_witness :
  let s := mkState (Some [b_js; c_js]) "b.js" 1 in
  _setNewActiveFile s = with_index 0 s ∧
  _activeFileName (_setNewActiveFile s) = "b.js" ∧
  _activeFileIndex (_setNewActiveFile s) = 0 ∧
  _project (_setNewActiveFile s) = _project s.
Proof.
  intros s.
  apply (reconcile_keeps_same_name s 0%nat b_js).
  - simpl. discriminate.
  - reflexivity.
  - reflexivity.
  - intros j g Hlt. lia.
Defined.

(** C6: when the visible file list is empty, or the name is not kept and
    the backward scan finds no shown entry, the active index becomes 0 and
    the active filename the empty string. *)
Theorem reconcile_nothing_shown s :
  _visibleFiles s = [] ∨
    (same_name_index s = None ∧
     none_shown_upto (_visibleFiles s) (_activeFileIndex s)) →
  _activeFileIndex (_setNewActiveFile s) = 0 ∧
  _activeFileName (_setNewActiveFile s) = "".
Proof.
  intros Hcase.
  assert (same_name_index s = None ∧
          none_shown_upto (_visibleFiles s) (_activeFileIndex s))
    as [Hgone Hnone].
  { destruct Hcase as [Hnil|?]; [|done]. split.
    - by apply same_name_index_nil.
    - rewrite Hnil. apply none_shown_nil. }
  unfold _setNewActiveFile. by rewrite Hgone, scan_left_none.
Qed.

Lemma reconcile_nothing_shown_witness :
  let s := mkState (Some []) "b.js" 1 in
  _activeFileIndex (_setNewActiveFile s) = 0 ∧
  _activeFileName (_setNewActiveFile s) = "".
Proof.
  intros s. apply (reconcile_nothing_shown s). left. reflexivity.
Defined.

(** C9: in the backward-scan branch only the active filename is assigned;
    the stored index keeps its value, so when the scan stopped strictly
    left of the previous index, the stored index is not the position of
    the activated file in the visible list. *)
Theorem scan_branch_keeps_index s (k : nat) f :
  same_name_index s = None →
  first_shown_at (_visibleFiles s) (_activeFileIndex s) k f →
  _setNewActiveFile s = with_name (name f) s ∧
  _activeFileIndex (_setNewActiveFile s) = _activeFileIndex s ∧
  (Z.of_nat k < _activeFileIndex s →
     _activeFileIndex (_setNewActiveFile s) ≠ Z.of_nat k ∧
     _activeFileIndex (_setNewActiveFile s)
       ≠ findIndex (_activeFileName (_setNewActiveFile s))
           (_visibleFiles (_setNewActiveFile s))).
Proof.
  intros Hgone Hfirst.
  assert (_setNewActiveFile s = with_name (name f) s) as ->.
  { unfold _setNewActiveFile. by rewrite Hgone, (scan_left_first _ _ k f). }
  split_and!; [done..|]. simpl. intros Hlt. split; [lia|].
  destruct Hfirst as (_ & Hk & _).
  change (_visibleFiles (with_name (name f) s)) with (_visibleFiles s).
  pose proof (findIndex_le (name f) _ k f Hk eq_refl). lia.
Qed.

Lemma scan_branch_keeps_index_witness :
  let s := mkState (Some [a_js; b_js]) "c.js" 2 in
  _setNewActiveFile s = with_name "b.js" s ∧
  _activeFileIndex (_setNewActiveFile s) = 2 ∧
  (Z.of_nat 1 < 2 →
     _activeFileIndex (_setNewActiveFile s) ≠ Z.of_nat 1 ∧
     _activeFileIndex (_setNewActiveFile s)
       ≠ findIndex (_activeFileName (_setNewActiveFile s))
           (_visibleFiles (_setNewActiveFile s))).
Proof.
  intros s.
  apply (scan_branch_keeps_index s 1%nat b_js).
  - reflexivity.
  - unfold first_shown_at. simpl. split_and!; [lia|reflexivity|reflexivity|].
    intros j g Hlt Hle Hj. apply lookup_lt_Some in Hj. simpl in Hj. lia.
Defined.

End FileTabBarFacts.

(* ===================================================================== *)
(** * Active-tab synchronisation                                          *)
(* ===================================================================== *)

Module TabBarFacts.
Import TabBar.

(** ** Writing a tab's fields *)

Section tab_writes.
Context (t : tabref) (s : Bar).

Lemma tab_set_index_heap i r :
  heap (tab_set_index t i s) r =
    if decide (r = t) then mkTab i (active (heap s r)) (attr_active (heap s r))
    else heap s r.
Proof.
  unfold tab_set_index. simpl. case_decide as E.
  - subst. by rewrite fn_lookup_alter.
  - by rewrite fn_lookup_alter_ne.
Qed.

Lemma tab_set_active_heap b r :
  heap (tab_set_active t b s) r =
    if decide (r = t) then mkTab (index (heap s r)) b (attr_active (heap s r))
    else heap s r.
Proof.
  unfold tab_set_active.
  assert (∀ s', heap s' =
            alter (λ o, mkTab (index o) b (attr_active o)) t (heap s) →
          heap s' r = if decide (r = t)
                      then mkTab (index (heap s r)) b (attr_active (heap s r))
                      else heap s r) as Hh.
  { intros s' ->. case_decide as E.
    - subst. by rewrite fn_lookup_alter.
    - by rewrite fn_lookup_alter_ne. }
  destruct (negb _ && b); by apply Hh.
Qed.

Lemma tab_set_active_flag b r :
  active (heap (tab_set_active t b s) r) =
    if decide (r = t) then b else active (heap s r).
Proof. rewrite tab_set_active_heap. by case_decide. Qed.

Lemma tab_set_active_index b r :
  index (heap (tab_set_active t b s) r) = index (heap s r).
Proof. rewrite tab_set_active_heap. by case_decide. Qed.

Lemma tab_set_active_attr b r :
  attr_active (heap (tab_set_active t b s) r) = attr_active (heap s r).
Proof. rewrite tab_set_active_heap. by case_decide. Qed.

Lemma tab_set_active_tabs b : _tabs (tab_set_active t b s) = _tabs s.
Proof. unfold tab_set_active. by destruct (negb _ && b). Qed.

Lemma tab_set_active_active b : _active (tab_set_active t b s) = _active s.
Proof. unfold tab_set_active. by destruct (negb _ && b). Qed.

Lemma tab_set_active_false_log : log (tab_set_active t false s) = log s.
Proof. unfold tab_set_active. by rewrite andb_false_r. Qed.
End tab_writes.

(** ** The setter *)

Lemma set_active_same s : set_active (_active s) s = s.
Proof. unfold set_active. by rewrite decide_True. Qed.

Lemma set_active_tabs c s : _tabs (set_active c s) = _tabs s.
Proof.
  unfold set_active. case_decide; [done|].
  destruct c, (_active s); simpl; by rewrite ?tab_set_active_tabs.
Qed.

Lemma set_active_active c s : _active (set_active c s) = c.
Proof.
  unfold set_active. case_decide; [done|].
  destruct c, (_active s); simpl; by rewrite ?tab_set_active_active.
Qed.

Lemma set_active_index c s r :
  index (heap (set_active c s) r) = index (heap s r).
Proof.
  unfold set_active. case_decide; [done|].
  destruct c, (_active s); simpl; by rewrite ?tab_set_active_index.
Qed.

Lemma set_active_attr c s r :
  attr_active (heap (set_active c s) r) = attr_active (heap s r).
Proof.
  unfold set_active. case_decide; [done|].
  destruct c, (_active s); simpl; by rewrite ?tab_set_active_attr.
Qed.

(** The flags after a call that changes the active tab: the new tab's is
    set, the old one's cleared, the others untouched. *)
Lemma set_active_flag c s r :
  c ≠ _active s →
  active (heap (set_active c s) r) =
    if decide (c = Some r) then true
    else if decide (_active s = Some r) then false
    else active (heap s r).
Proof.
  intros Hne. unfold set_active. rewrite decide_False by done.
  destruct c as [t|], (_active s) as [o|] eqn:Eo; simpl;
    rewrite ?tab_set_active_flag; simpl; repeat case_decide; congruence.
Qed.

Lemma set_active_twice c s : set_active c (set_active c s) = set_active c s.
Proof.
  rewrite <-(set_active_active c s) at 1. apply set_active_same.
Qed.

(** The notification a tab sends back when the setter raised its flag
    finds the tab already active: handling it changes nothing. *)
Lemma activateTab_after_set_active t s :
  _activateTab (Some t) (set_active (Some t) s) = set_active (Some t) s.
Proof. unfold _activateTab. by rewrite set_active_active, decide_True. Qed.

(** ** Steps and sequences of calls *)

Lemma set_active_steps_same s : set_active_steps (_active s) s = [].
Proof. unfold set_active_steps. by rewrite decide_True. Qed.

Lemma set_active_steps_last c s :
  c ≠ _active s → last (set_active_steps c s) = Some (set_active c s).
Proof.
  intros Hne. unfold set_active_steps, set_active.
  by rewrite !decide_False by done.
Qed.

Lemma run_calls_tabs calls s : _tabs (run_calls calls s) = _tabs s.
Proof.
  revert s. induction calls as [|c calls IH]; intros s; [done|].
  unfold run_calls in *. simpl. by rewrite IH, set_active_tabs.
Qed.

(** ** At most one flag *)

Lemma filter_at_most_one {A} (P : A → Prop) `{!∀ x, Decision (P x)} (l : list A) :
  NoDup l → (∀ x y, x ∈ l → y ∈ l → P x → P y → x = y) →
  (length (filter P l) ≤ 1)%nat.
Proof.
  induction 1 as [|x l Hx Hnd IH]; intros Huniq; [simpl; lia|].
  rewrite filter_cons. case_decide as HP.
  - destruct (filter P l) as [|y rest] eqn:E; [simpl; lia|].
    exfalso. apply Hx.
    assert (y ∈ filter P l) as [HPy Hy]%list_elem_of_filter
      by (rewrite E; left).
    rewrite (Huniq x y); [done|left|by right|done..].
  - apply IH. intros ? ? ? ?. apply Huniq; by right.
Qed.

Lemma flags_within_single o s :
  NoDup (_tabs s) → flags_within o s → single_active s.
Proof.
  intros Hnd Hin. apply filter_at_most_one; [done|].
  intros x y Hx Hy Hax Hay.
  pose proof (Hin x Hx Hax). pose proof (Hin y Hy Hay). congruence.
Qed.

Lemma flags_within_None_items s : flags_within None s → active_items s = [].
Proof.
  intros Hin. unfold active_items.
  destruct (filter _ (_tabs s)) as [|y rest] eqn:E; [done|].
  assert (y ∈ filter (λ r, active (heap s r) = true) (_tabs s))
    as [Hay Hy]%list_elem_of_filter by (rewrite E; left).
  by pose proof (Hin y Hy Hay).
Qed.

Lemma flags_within_items o s r :
  flags_within o s → r ∈ active_items s → o = Some r.
Proof. intros Hin [Ha Hr]%list_elem_of_filter. by apply Hin. Qed.

Lemma set_active_synced c s : synced s → synced (set_active c s).
Proof.
  intros Hs. destruct (decide (c = _active s)) as [->|Hne].
  { by rewrite set_active_same. }
  intros r Hr. rewrite set_active_tabs in Hr.
  rewrite set_active_active, set_active_flag by done.
  repeat case_decide; [done..|]. intros Ha. by pose proof (Hs r Hr Ha).
Qed.

Lemma run_calls_synced calls s : synced s → synced (run_calls calls s).
Proof.
  revert s. induction calls as [|c calls IH]; intros s Hs; [done|].
  apply IH, set_active_synced, Hs.
Qed.

(** The three states a changing call passes through. *)
Lemma set_active_steps_inv c s :
  synced s → c ≠ _active s →
  ∃ s1 s2 s3,
    set_active_steps c s = [s1; s2; s3] ∧ s3 = set_active c s ∧
    (_tabs s1 = _tabs s ∧ heap s1 = heap s) ∧
    (_tabs s2 = _tabs s ∧ flags_within None s2) ∧
    flags_within c s3.
Proof.
  intros Hs Hne. unfold set_active_steps, set_active.
  rewrite !decide_False by done.
  eexists _, _, _. split_and!; [done..| | | ].
  - destruct (_active s); simpl; by rewrite ?tab_set_active_tabs.
  - intros r Hr Ha. exfalso.
    destruct (_active s) as [o|] eqn:Eo.
    + rewrite tab_set_active_tabs in Hr. rewrite tab_set_active_flag in Ha.
      simpl in *. case_decide as E; [done|].
      pose proof (Hs r Hr Ha) as Hr'. rewrite Eo in Hr'. congruence.
    + pose proof (Hs r Hr Ha) as Hr'. rewrite Eo in Hr'. done.
  - pose proof (set_active_synced c s Hs) as Hs3.
    unfold synced in Hs3. rewrite set_active_active in Hs3.
    unfold set_active in Hs3. by rewrite decide_False in Hs3 by done.
Qed.

Lemma set_active_steps_flags c s s1 s2 s3 :
  c ≠ _active s → set_active_steps c s = [s1; s2; s3] →
  (∀ o, _active s = Some o → active (heap s2 o) = false) ∧
  (∀ t, c = Some t → active (heap s3 t) = true).
Proof.
  intros Hne. unfold set_active_steps. rewrite decide_False by done.
  intros [= <- <- <-]. split.
  - intros o ->. rewrite tab_set_active_flag. by rewrite decide_True.
  - intros t ->. rewrite tab_set_active_flag. by rewrite decide_True.
Qed.

Lemma instants_single calls s :
  NoDup (_tabs s) → synced s → Forall single_active (instants calls s).
Proof.
  revert s. induction calls as [|c calls IH]; intros s Hnd Hs; simpl.
  { constructor; [|constructor]. by eapply flags_within_single. }
  constructor; [by eapply flags_within_single|].
  apply Forall_app. split.
  - destruct (decide (c = _active s)) as [->|Hne].
    { rewrite set_active_steps_same. constructor. }
    destruct (set_active_steps_inv c s Hs Hne)
      as (s1 & s2 & s3 & -> & -> & [Ht1 Hh1] & [Ht2 Hn2] & H3).
    apply Forall_cons_2; [|apply Forall_cons_2; [|apply Forall_cons_2; [|constructor]]].
    + apply (flags_within_single (_active s)); [by rewrite Ht1|].
      intros r Hr Ha. rewrite Ht1 in Hr. rewrite Hh1 in Ha. by apply Hs.
    + apply (flags_within_single None); [by rewrite Ht2|done].
    + apply (flags_within_single c); [by rewrite set_active_tabs|done].
  - apply IH; [by rewrite set_active_tabs|by apply set_active_synced].
Qed.

(** ** The loop of [_onSlotchange] *)

Lemma slot_loop_frame ts : ∀ i na s,
  let s' := (slot_loop ts i na s).2 in
  _tabs s' = _tabs s ∧ _active s' = _active s ∧ log s' = log s ∧
  (∀ r, attr_active (heap s' r) = attr_active (heap s r)) ∧
  (∀ r, r ∉ ts → heap s' r = heap s r) ∧
  (∀ r, active (heap s' r) = true → active (heap s r) = true).
Proof.
  induction ts as [|tab rest IH]; intros i na s; simpl.
  { split_and!; done. }
  assert (∀ s1,
    _tabs s1 = _tabs s → _active s1 = _active s → log s1 = log s →
    (∀ r, attr_active (heap s1 r) = attr_active (heap s r)) →
    (∀ r, r ≠ tab → heap s1 r = heap s r) →
    (∀ r, active (heap s1 r) = true → active (heap s r) = true) →
    ∀ na',
    let s' := (slot_loop rest (i + 1) na' s1).2 in
    _tabs s' = _tabs s ∧ _active s' = _active s ∧ log s' = log s ∧
    (∀ r, attr_active (heap s' r) = attr_active (heap s r)) ∧
    (∀ r, r ∉ tab :: rest → heap s' r = heap s r) ∧
    (∀ r, active (heap s' r) = true → active (heap s r) = true)) as Hstep.
  { intros s1 Ht Ha Hl Hattr Hout Hmono na'.
    destruct (IH (i + 1) na' s1) as (Ht' & Ha' & Hl' & Hattr' & Hout' & Hmono').
    simpl. split_and!; [congruence..| | | ].
    - intros r. by rewrite Hattr'.
    - intros r [Hr1 Hr2]%not_elem_of_cons. by rewrite Hout', Hout.
    - intros r Hr. by apply Hmono, Hmono'. }
  set (s1 := tab_set_index tab i s).
  assert (∀ r, heap s1 r = if decide (r = tab)
            then mkTab i (active (heap s r)) (attr_active (heap s r))
            else heap s r) as Hs1 by apply tab_set_index_heap.
  destruct na as [a|].
  - apply Hstep; rewrite ?tab_set_active_tabs, ?tab_set_active_active,
      ?tab_set_active_false_log; try done.
    + intros r. rewrite tab_set_active_attr, Hs1. by case_decide.
    + intros r Hr. rewrite tab_set_active_heap, Hs1.
      by rewrite !decide_False by done.
    + intros r. rewrite tab_set_active_flag, Hs1.
      by repeat case_decide.
  - destruct (_ || _); apply Hstep; try done.
    all: try (intros r; rewrite Hs1; by case_decide).
    all: intros r Hr; rewrite Hs1; by rewrite decide_False by done.
Qed.

Lemma slot_loop_index ts : ∀ i na s (j : nat) r,
  NoDup ts → ts !! j = Some r →
  index (heap (slot_loop ts i na s).2 r) = i + Z.of_nat j.
Proof.
  induction ts as [|tab rest IH]; intros i na s j r Hnd Hj; [done|].
  apply NoDup_cons in Hnd as [Hnotin Hnd].
  destruct j as [|j]; simpl in Hj.
  - injection Hj as ->.
    assert (∀ na' s1, index (heap s1 r) = i →
              index (heap (slot_loop rest (i + 1) na' s1).2 r) = i + Z.of_nat 0)
      as Hkeep.
    { intros na' s1 Hi.
      destruct (slot_loop_frame rest (i + 1) na' s1) as (_ & _ & _ & _ & Hout & _).
      rewrite Hout by done. lia. }
    simpl. destruct na as [a|].
    + apply Hkeep. rewrite tab_set_active_index, tab_set_index_heap.
      by rewrite decide_True.
    + destruct (_ || _); apply Hkeep; rewrite tab_set_index_heap;
        by rewrite decide_True.
  - simpl. destruct na as [a|]; [|destruct (_ || _)];
      rewrite (IH (i + 1) _ _ j r) by done; lia.
Qed.

Lemma slot_loop_Some ts : ∀ i a s,
  (slot_loop ts i (Some a) s).1 = Some a ∧
  ∀ r, r ∈ ts → active (heap (slot_loop ts i (Some a) s).2 r) = false.
Proof.
  induction ts as [|tab rest IH]; intros i a s; simpl.
  { split; [done|]. intros r Hr. by apply not_elem_of_nil in Hr. }
  destruct (IH (i + 1) a (tab_set_active tab false (tab_set_index tab i s)))
    as [Hfst Hoff].
  split; [done|]. intros r Hr.
  destruct (decide (r ∈ rest)) as [|Hnotin]; [by apply Hoff|].
  apply elem_of_cons in Hr as [->|?]; [|done].
  destruct (slot_loop_frame rest (i + 1) (Some a)
              (tab_set_active tab false (tab_set_index tab i s)))
    as (_ & _ & _ & _ & Hout & _).
  simpl in Hout. rewrite Hout by done.
  rewrite tab_set_active_flag. by rewrite decide_True.
Qed.

Lemma claims_active_set_index tab i s r :
  claims_active (tab_set_index tab i s) r = claims_active s r.
Proof. unfold claims_active. rewrite tab_set_index_heap. by case_decide. Qed.

Lemma first_claimant_cons s tab rest :
  first_claimant s (tab :: rest) =
    if claims_active s tab then Some tab else first_claimant s rest.
Proof.
  unfold first_claimant. simpl. case_decide as Hc.
  - by rewrite Hc.
  - apply not_true_is_false in Hc. rewrite Hc.
    by destruct (list_find _ rest) as [[? ?]|].
Qed.

Lemma first_claimant_ext s1 s2 items :
  (∀ r, claims_active s1 r = claims_active s2 r) →
  first_claimant s1 items = first_claimant s2 items.
Proof.
  intros Heq. induction items as [|tab rest IH]; [done|].
  by rewrite !first_claimant_cons, Heq, IH.
Qed.

Lemma slot_loop_cons_None tab rest i s :
  slot_loop (tab :: rest) i None s =
    if claims_active s tab
    then slot_loop rest (i + 1) (Some tab) (tab_set_index tab i s)
    else slot_loop rest (i + 1) None (tab_set_index tab i s).
Proof. by rewrite <-(claims_active_set_index tab i s tab). Qed.

Lemma slot_loop_None ts : ∀ i s,
  NoDup ts →
  let res := slot_loop ts i None s in
  res.1 = first_claimant s ts ∧
  (∀ r, r ∈ ts → res.1 ≠ Some r → active (heap res.2 r) = false) ∧
  (∀ a, res.1 = Some a → active (heap res.2 a) = active (heap s a)).
Proof.
  induction ts as [|tab rest IH]; intros i s Hnd.
  { simpl. split_and!; [done| |done]. intros r Hr. by apply not_elem_of_nil in Hr. }
  apply NoDup_cons in Hnd as [Hnotin Hnd].
  rewrite first_claimant_cons, slot_loop_cons_None.
  set (s1 := tab_set_index tab i s).
  destruct (claims_active s tab) eqn:Hc; cbv zeta.
  - destruct (slot_loop_Some rest (i + 1) tab s1) as [Hfst Hoff].
    destruct (slot_loop_frame rest (i + 1) (Some tab) s1)
      as (_ & _ & _ & _ & Hout & _).
    split_and!; [done| |].
    + intros r Hr Hne. apply Hoff. rewrite Hfst in Hne.
      by apply elem_of_cons in Hr as [->|?].
    + rewrite Hfst. intros a [= <-]. rewrite Hout by done.
      unfold s1. rewrite tab_set_index_heap. by rewrite decide_True.
  - destruct (IH (i + 1) s1 Hnd) as (Hfst & Hoff & Hkeep).
    destruct (slot_loop_frame rest (i + 1) None s1)
      as (_ & _ & _ & _ & Hout & Hmono).
    assert (∀ r, active (heap s1 r) = active (heap s r)) as Hflag.
    { intros r. unfold s1. rewrite tab_set_index_heap. by case_decide. }
    split_and!.
    + rewrite Hfst. apply first_claimant_ext.
      intros r. apply claims_active_set_index.
    + intros r Hr Hne.
      destruct (decide (r ∈ rest)) as [|Hnr]; [by apply Hoff|].
      apply elem_of_cons in Hr as [->|?]; [|done].
      apply not_true_is_false. intros Hon%Hmono.
      rewrite Hflag in Hon. unfold claims_active in Hc.
      by rewrite Hon in Hc.
    + intros a Ha. by rewrite Hkeep, Hflag.
Qed.

(** ** What [first_claimant] is *)

Lemma first_claimant_Some s items r :
  first_claimant s items = Some r ↔
  ∃ i : nat, items !! i = Some r ∧ claims_active s r = true ∧
    ∀ (j : nat) r', (j < i)%nat → items !! j = Some r' → claims_active s r' = false.
Proof.
  unfold first_claimant. split.
  - destruct (list_find _ items) as [[i x]|] eqn:E; [|done].
    intros [= ->]. apply list_find_Some in E as (Hi & Hc & Hfirst).
    exists i. split_and!; [done..|].
    intros j r' Hlt Hj. apply not_true_is_false. by eapply Hfirst.
  - intros (i & Hi & Hc & Hfirst).
    assert (list_find (λ r, claims_active s r = true) items = Some (i, r))
      as ->; [|done].
    apply list_find_Some. split_and!; [done..|].
    intros j r' Hj Hlt. by rewrite (Hfirst j r').
Qed.

Lemma first_claimant_None s items :
  first_claimant s items = None ↔ ∀ r, r ∈ items → claims_active s r = false.
Proof.
  unfold first_claimant. rewrite fmap_None, list_find_None, Forall_forall.
  split; intros H r Hr.
  - by apply not_true_is_false, H.
  - by rewrite H.
Qed.

(** ** [_onSlotchange] *)

Lemma onSlotchange_unfold items s :
  _onSlotchange items s =
    set_active (slot_loop items 0 None (with_tabs items s)).1
               (slot_loop items 0 None (with_tabs items s)).2.
Proof.
  unfold _onSlotchange. simpl.
  by destruct (slot_loop items 0 None (with_tabs items s)).
Qed.

Lemma onSlotchange_spec s items :
  NoDup items →
  _tabs (_onSlotchange items s) = items ∧
  (∀ (i : nat) r, items !! i = Some r →
     index (heap (_onSlotchange items s) r) = Z.of_nat i) ∧
  _active (_onSlotchange items s) = first_claimant s items ∧
  (∀ r, r ∈ items → first_claimant s items ≠ Some r →
     active (heap (_onSlotchange items s) r) = false) ∧
  (∀ r, first_claimant s items = Some r →
     _active s ≠ Some r ∨ active (heap s r) = true →
     active (heap (_onSlotchange items s) r) = true).
Proof.
  intros Hnd. rewrite onSlotchange_unfold.
  set (s0 := with_tabs items s).
  destruct (slot_loop_frame items 0 None s0) as (Ht & Ha & _ & _ & _ & _).
  destruct (slot_loop_None items 0 s0 Hnd) as (Hfst & Hoff & Hkeep).
  assert (first_claimant s0 items = first_claimant s items) as Hfc
    by by apply first_claimant_ext.
  rewrite Hfc in Hfst.
  set (res := slot_loop items 0 None s0) in *. simpl in Ht, Ha.
  split_and!.
  - by rewrite set_active_tabs.
  - intros i r Hi. rewrite set_active_index.
    unfold res. rewrite (slot_loop_index items 0 None s0 i r) by done. lia.
  - by rewrite set_active_active.
  - intros r Hr Hne. rewrite <-Hfst in Hne.
    destruct (decide (res.1 = _active res.2)) as [->|Hch].
    + rewrite set_active_same. by apply Hoff.
    + rewrite set_active_flag by done.
      repeat case_decide; [congruence|done|]. by apply Hoff.
  - intros r Hr Hor. rewrite <-Hfst in Hr.
    destruct (decide (res.1 = _active res.2)) as [Hsame|Hch].
    + rewrite Hsame, set_active_same.
      rewrite Hkeep by done. simpl.
      destruct Hor as [Hne|Hon]; [|done]. congruence.
    + rewrite set_active_flag by done. by rewrite decide_True.
Qed.

Lemma onSlotchange_synced s items :
  NoDup items → synced (_onSlotchange items s).
Proof.
  intros Hnd.
  destruct (onSlotchange_spec s items Hnd) as (Ht & _ & Ha & Hoff & _).
  intros r Hr Hon. rewrite Ht in Hr. rewrite Ha.
  destruct (decide (first_claimant s items = Some r)) as [|Hne]; [done|].
  rewrite (Hoff r Hr Hne) in Hon. done.
Qed.

(** After [_onSlotchange] the index key navigation starts from is that of
    a tab of the bar, or 0. *)
Lemma onSlotchange_oldIdx s items :
  NoDup items →
  0 ≤ oldIdx (_onSlotchange items s)
    ≤ Z.max 0 (Z.of_nat (length (_tabs (_onSlotchange items s))) - 1).
Proof.
  intros Hnd.
  destruct (onSlotchange_spec s items Hnd) as (Ht & Hidx & Ha & _ & _).
  unfold oldIdx. rewrite Ha, Ht.
  destruct (first_claimant s items) as [a|] eqn:E; [|lia].
  apply first_claimant_Some in E as (i & Hi & _).
  rewrite (Hidx i a Hi). apply lookup_lt_Some in Hi. lia.
Qed.

(** ** Key navigation *)

(** Case analysis on every [<?] test of the goal, with the order facts. *)
Ltac case_ltb :=
  repeat match goal with
         | |- context [?a <? ?b] => destruct (Z.ltb_spec a b)
         end.

Lemma onKeydown_same_index key s :
  newIdx key s = oldIdx s → _onKeydown key s = (s, Fulfilled).
Proof. intros H. unfold _onKeydown. by rewrite decide_True. Qed.

Lemma onKeydown_moves key s t :
  newIdx key s ≠ oldIdx s → tab_at (_tabs s) (newIdx key s) = Some t →
  _onKeydown key s = (emit (Focus t) (set_active (Some t) s), Fulfilled).
Proof.
  intros Hne Ht. unfold _onKeydown. rewrite decide_False by done.
  by rewrite Ht.
Qed.

(** ** The claims *)

(** C2: starting from a bar whose tabs are distinct and where only the
    active tab carries the flag (the state [_onSlotchange] leaves, see
    [onSlotchange_synced]), at most one tab has [active = true] at every
    instant of every sequence of calls to the setter, in particular after
    each call.  A call that changes the active tab goes through a state
    where the old tab's flag is already false and no tab of the bar is
    active, and only then sets the new tab's flag. *)
Theorem at_most_one_active_along_calls s calls :
  NoDup (_tabs s) → synced s →
  Forall single_active (instants calls s) ∧
  (∀ n, single_active (run_calls (take n calls) s)) ∧
  synced (run_calls calls s) ∧
  (∀ c, c ≠ _active s →
     ∃ s1 s2 s3,
       set_active_steps c s = [s1; s2; s3] ∧ s3 = set_active c s ∧
       active_items s1 = active_items s ∧
       active_items s2 = [] ∧
       (∀ o, _active s = Some o → active (heap s2 o) = false) ∧
       (∀ t, c = Some t → active (heap s3 t) = true) ∧
       (∀ r, r ∈ active_items s3 → c = Some r)).
Proof.
  intros Hnd Hs. split_and!.
  - by apply instants_single.
  - intros n. apply (flags_within_single (_active (run_calls (take n calls) s))).
    + by rewrite run_calls_tabs.
    + by apply run_calls_synced.
  - by apply run_calls_synced.
  - intros c Hne.
    destruct (set_active_steps_inv c s Hs Hne)
      as (s1 & s2 & s3 & Hsteps & -> & [Ht1 Hh1] & [Ht2 Hn2] & H3).
    destruct (set_active_steps_flags c s s1 s2 _ Hne Hsteps) as [Hold Hnew].
    exists s1, s2, (set_active c s). split_and!; [done..| | |done|done|].
    + unfold active_items. by rewrite Ht1, Hh1.
    + by apply flags_within_None_items.
    + intros r. by apply flags_within_items.
Qed.

Lemma at_most_one_active_along_calls_witness :
  Forall single_active
    (instants [Some 0%nat; Some 1%nat; None; Some 2%nat] three_tabs) ∧
  synced (run_calls [Some 0%nat; Some 1%nat; None; Some 2%nat] three_tabs).
Proof.
  destruct (at_most_one_active_along_calls three_tabs
              [Some 0%nat; Some 1%nat; None; Some 2%nat])
    as (Hall & _ & Hsync & _).
  - apply (bool_decide_unpack _). vm_compute. exact I.
  - intros r _ Hon. vm_compute in Hon. discriminate Hon.
  - exact (conj Hall Hsync).
Defined.

(** C4: calling the setter with the tab that is already active returns
    the state as it is: no flag changes and nothing is dispatched.  Hence
    a second call with the same tab changes nothing after the first. *)
Theorem set_active_already_active_is_noop (s s0 : Bar) (x : tabref) :
  _active s = Some x →
  set_active (Some x) s = s ∧
  heap (set_active (Some x) s) = heap s ∧
  log (set_active (Some x) s) = log s ∧
  set_active (Some x) (set_active (Some x) s0) = set_active (Some x) s0.
Proof.
  intros Hx.
  assert (set_active (Some x) s = s) as ->.
  { rewrite <-Hx. apply set_active_same. }
  split_and!; [done..|]. apply set_active_twice.
Qed.

Lemma set_active_already_active_is_noop_witness :
  let s := set_active (Some 1%nat) three_tabs in
  set_active (Some 1%nat) s = s ∧
  heap (set_active (Some 1%nat) s) = heap s ∧
  log (set_active (Some 1%nat) s) = log s ∧
  set_active (Some 1%nat) (set_active (Some 1%nat) three_tabs)
    = set_active (Some 1%nat) three_tabs.
Proof.
  intros s.
  apply (set_active_already_active_is_noop s three_tabs 1%nat).
  reflexivity.
Defined.

(** C3: after [_onSlotchange] on a list of distinct tabs, every tab's
    index is its position; the earliest tab whose flag or attribute is set
    is the bar's active tab, its flag is set (unless it was the bar's
    active tab before with its flag off, when the setter returns early),
    and every other tab of the list has its flag off; when no tab claims
    to be active, the bar has no active tab. *)
Theorem onSlotchange_first_active_wins s items :
  NoDup items →
  _tabs (_onSlotchange items s) = items ∧
  (∀ (i : nat) r, items !! i = Some r →
     index (heap (_onSlotchange items s) r) = Z.of_nat i) ∧
  _active (_onSlotchange items s) = first_claimant s items ∧
  (∀ (i : nat) r,
     items !! i = Some r → claims_active s r = true →
     (∀ (j : nat) r', (j < i)%nat → items !! j = Some r' →
        claims_active s r' = false) →
     _active (_onSlotchange items s) = Some r ∧
     (_active s ≠ Some r ∨ active (heap s r) = true →
        active (heap (_onSlotchange items s) r) = true) ∧
     (∀ r', r' ∈ items → r' ≠ r →
        active (heap (_onSlotchange items s) r') = false)) ∧
  ((∀ r, r ∈ items → claims_active s r = false) →
     _active (_onSlotchange items s) = None ∧
     ∀ r, r ∈ items → active (heap (_onSlotchange items s) r) = false) ∧
  single_active (_onSlotchange items s).
Proof.
  intros Hnd.
  destruct (onSlotchange_spec s items Hnd) as (Ht & Hidx & Ha & Hoff & Hon).
  split_and!; [done..| | |].
  - intros i r Hi Hc Hfirst.
    assert (first_claimant s items = Some r) as Hfc.
    { apply first_claimant_Some. by exists i. }
    split_and!.
    + by rewrite Ha.
    + by apply Hon.
    + intros r' Hr' Hne. apply Hoff; [done|]. congruence.
  - intros Hnone.
    assert (first_claimant s items = None) as Hfc
      by by apply first_claimant_None.
    split; [by rewrite Ha|].
    intros r Hr. apply Hoff; [done|]. by rewrite Hfc.
  - apply (flags_within_single (_active (_onSlotchange items s))).
    + by rewrite Ht.
    + by apply onSlotchange_synced.
Qed.

Lemma onSlotchange_first_active_wins_witness :
  let s' := _onSlotchange [0; 1; 2]%nat marked_tabs in
  _tabs s' = [0; 1; 2]%nat ∧
  _active s' = first_claimant marked_tabs [0; 1; 2]%nat ∧
  _active s' = Some 1%nat ∧
  single_active s'.
Proof.
  intros s'.
  destruct (onSlotchange_first_active_wins marked_tabs [0; 1; 2]%nat)
    as (Ht & _ & Ha & _ & _ & Hone).
  - apply (bool_decide_unpack _). vm_compute. exact I.
  - split_and!; [exact Ht|exact Ha| |exact Hone].
    unfold s'. rewrite Ha. reflexivity.
Defined.

(** Tabs 1 and 2 both carry the marker: after [_onSlotchange] the indices
    are 0, 1, 2 whatever they were, only tab 1 is active, and it has
    announced itself once. *)
Example onSlotchange_marked_tabs :
  let s' := _onSlotchange [0; 1; 2]%nat marked_tabs in
  (λ r, index (heap s' r)) <$> [0; 1; 2]%nat = [0; 1; 2] ∧
  (λ r, active (heap s' r)) <$> [0; 1; 2]%nat = [false; true; false] ∧
  _active s' = Some 1%nat ∧
  log s' = [TabChange (Some 1%nat)].
Proof. vm_compute. by split_and!. Qed.

(** C7: when the index navigation starts from lies within the bar (it
    does after [_onSlotchange], see [onSlotchange_oldIdx]), the new index
    is the neighbouring index clamped to [0, n-1], without wrapping around;
    and at the boundary in the requested direction the handler returns the
    state as it is: same active tab, same flags, same indices, nothing
    dispatched.  When the index does move, the handler makes the tab at
    the new index the active one and focuses it. *)
Theorem keydown_clamps_and_stops_at_boundary s key :
  0 ≤ oldIdx s ≤ Z.max 0 (Z.of_nat (length (_tabs s)) - 1) →
  newIdx ArrowLeft s = clamp 0 (Z.of_nat (length (_tabs s)) - 1) (oldIdx s - 1) ∧
  newIdx ArrowRight s = clamp 0 (Z.of_nat (length (_tabs s)) - 1) (oldIdx s + 1) ∧
  0 ≤ newIdx key s ≤ Z.max 0 (Z.of_nat (length (_tabs s)) - 1) ∧
  (newIdx key s = oldIdx s → _onKeydown key s = (s, Fulfilled)) ∧
  (oldIdx s = 0 → _onKeydown ArrowLeft s = (s, Fulfilled)) ∧
  (oldIdx s = Z.max 0 (Z.of_nat (length (_tabs s)) - 1) →
     _onKeydown ArrowRight s = (s, Fulfilled)) ∧
  (newIdx key s ≠ oldIdx s →
     ∃ t, tab_at (_tabs s) (newIdx key s) = Some t ∧
       _onKeydown key s
         = (emit (Focus t) (set_active (Some t) s), Fulfilled)).
Proof.
  intros Hrange. unfold clamp. split_and!.
  - unfold newIdx. case_ltb; lia.
  - unfold newIdx. case_ltb; lia.
  - unfold newIdx. destruct key; case_ltb; lia.
  - unfold newIdx. destruct key; case_ltb; lia.
  - apply onKeydown_same_index.
  - intros H0. apply onKeydown_same_index. unfold newIdx. case_ltb; lia.
  - intros Hn. apply onKeydown_same_index. unfold newIdx. case_ltb; lia.
  - intros Hmove.
    assert (0 ≤ newIdx key s < Z.of_nat (length (_tabs s))) as Hin.
    { revert Hmove. unfold newIdx. destruct key; case_ltb; lia. }
    destruct (lookup_lt_is_Some_2 (_tabs s) (Z.to_nat (newIdx key s)))
      as [t Ht]; [lia|].
    assert (tab_at (_tabs s) (newIdx key s) = Some t) as Hat.
    { unfold tab_at. case_ltb; [lia|done]. }
    exists t. split; [done|]. by apply onKeydown_moves.
Qed.

Lemma keydown_clamps_and_stops_at_boundary_witness :
  let s := set_active (Some 0%nat) three_tabs in
  oldIdx s = 0 ∧
  newIdx ArrowLeft s = 0 ∧
  newIdx ArrowRight s = 1 ∧
  _onKeydown ArrowLeft s = (s, Fulfilled).
Proof.
  intros s.
  destruct (keydown_clamps_and_stops_at_boundary s ArrowLeft)
    as (Hl & Hr & _ & _ & Hstop & _).
  - vm_compute. split; discriminate.
  - split_and!; [reflexivity|exact Hl|exact Hr|].
    apply Hstop. reflexivity.
Defined.

(** C10: with no active tab the handler starts from index 0: on a bar of
    at least two distinct tabs, ArrowRight makes the tab at position 1
    the active one (not the tab at position 0, whose flag is left alone)
    and focuses it, and ArrowLeft returns the state as it is. *)
Theorem keydown_without_active_tab s :
  _active s = None → (2 ≤ length (_tabs s))%nat → NoDup (_tabs s) →
  ∃ t0 t1,
    _tabs s !! 0%nat = Some t0 ∧ _tabs s !! 1%nat = Some t1 ∧ t0 ≠ t1 ∧
    oldIdx s = 0 ∧
    _onKeydown ArrowLeft s = (s, Fulfilled) ∧
    _onKeydown ArrowRight s
      = (emit (Focus t1) (set_active (Some t1) s), Fulfilled) ∧
    _active (_onKeydown ArrowRight s).1 = Some t1 ∧
    _active (_onKeydown ArrowRight s).1 ≠ Some t0 ∧
    active (heap (_onKeydown ArrowRight s).1 t1) = true ∧
    active (heap (_onKeydown ArrowRight s).1 t0) = active (heap s t0).
Proof.
  intros Hnone Hlen Hnd.
  destruct (_tabs s) as [|t0 [|t1 rest]] eqn:Et; simpl in Hlen; [lia..|].
  exists t0, t1.
  assert (t0 ≠ t1) as Hne.
  { apply NoDup_cons in Hnd as [Hnotin _]. intros ->. apply Hnotin. left. }
  assert (oldIdx s = 0) as Hold by (unfold oldIdx; by rewrite Hnone).
  assert (newIdx ArrowRight s = 1) as Hnew.
  { unfold newIdx. rewrite Hold, Et. simpl length. case_ltb; lia. }
  assert (_onKeydown ArrowRight s
            = (emit (Focus t1) (set_active (Some t1) s), Fulfilled)) as Hright.
  { apply onKeydown_moves; [lia|]. by rewrite Hnew, Et. }
  split_and!; [done..| |done| | | |].
  - apply onKeydown_same_index. unfold newIdx. by rewrite Hold.
  - rewrite Hright. simpl. by rewrite set_active_active.
  - rewrite Hright. simpl. rewrite set_active_active. congruence.
  - rewrite Hright. simpl. rewrite set_active_flag by (rewrite Hnone; done).
    by rewrite decide_True.
  - rewrite Hright. simpl. rewrite set_active_flag by (rewrite Hnone; done).
    rewrite decide_False by congruence.
    rewrite decide_False by (rewrite Hnone; done). done.
Qed.

Lemma keydown_without_active_tab_witness :
  _active (_onKeydown ArrowRight three_tabs).1 = Some 1%nat ∧
  _onKeydown ArrowLeft three_tabs = (three_tabs, Fulfilled).
Proof.
  destruct (keydown_without_active_tab three_tabs)
    as (t0 & t1 & _ & H1 & _ & _ & Hleft & _ & Hact & _).
  - reflexivity.
  - simpl. lia.
  - apply (bool_decide_unpack _). vm_compute. exact I.
  - split; [|exact Hleft]. rewrite Hact. symmetry. exact H1.
Defined.

End TabBarFacts.

(* ===================================================================== *)
(** * Submit gating of the file-system controls                           *)
(* ===================================================================== *)

Module ControlsFacts.
Import Controls.





Lemma keydown_not_enabled enter s :
  ¬ (enter = true ∧ _submitButton_disabled s = Some false) →
  _onFilenameInputKeydown enter s = s.
Proof.
  intros Hno. unfold _onFilenameInputKeydown.
  destruct enter; [|done]. rewrite bool_decide_eq_false_2; [done|].
  intros ?. by apply Hno.
Qed.




Lemma render_frame s :
  state (render s) = state s ∧ filename (render s) = filename s ∧
  _project (render s) = _project s ∧ log (render s) = log s.
Proof.
  unfold render. destruct (state s) eqn:E, (form s) as [f|];
    repeat case_decide; by rewrite ?E.
Qed.

(** The form a rendering leaves: its button's [disabled] is the negated
    validity read before the rendering, and the input of a form that was
    already there, from the same template and with an unchanged binding,
    keeps its value. *)
Lemma render_form s :
  state s = rename ∨ state s = newfile →
  ∃ f, form (render s) = Some f ∧ template f = state s ∧
    disabled f = negb (_filenameInputValid s) ∧
    (state s = rename → bound_value f = filename_or_empty s) ∧
    (∀ g, form s = Some g → template g = state s →
       (state s = rename → bound_value g = filename_or_empty s) →
       input_value f = input_value g).
Proof.
  unfold render. intros [E | E]; rewrite E.
  - destruct (form s) as [g|] eqn:Eg.
    + destruct (decide (template g = rename)) as [Ht|Ht].
      * eexists. split; [done|]. simpl. split_and!; [done..|].
        intros g' [= <-] _ Hb. by rewrite decide_True by by apply Hb.
      * eexists. split; [done|]. simpl. split_and!; [done..|].
        intros g' [= <-] ?. done.
    + eexists. split; [done|]. simpl. split_and!; done.
  - destruct (form s) as [g|] eqn:Eg.
    + destruct (decide (template g = newfile)) as [Ht|Ht].
      * eexists. split; [done|]. simpl. split_and!; [done..|].
        by intros g' [= <-] _ _.
      * eexists. split; [done|]. simpl. split_and!; [done..|].
        intros g' [= <-] ?. done.
    + eexists. split; [done|]. simpl. split_and!; done.
Qed.

(** Typing into a rendered form keeps what was typed, and the rendering
    the 'input' event requests judges that value. *)
Lemma input_event_value v s :
  state s = rename ∨ state s = newfile →
  _filenameInput (input_event v (render s)) = Some v ∧
  _submitButton_disabled (input_event v (render s)) =
    Some (negb (match _project s with
                | Some p => isValidNewFilename p v
                | None => false
                end)) ∧
  _project (input_event v (render s)) = _project s ∧
  log (input_event v (render s)) = log s.
Proof.
  intros Hst.
  destruct (render_frame s) as (Hs1 & Hf1 & Hp1 & Hl1).
  destruct (render_form s Hst) as (f1 & Hform1 & Ht1 & _ & Hb1 & _).
  unfold input_event, _onFilenameInputChange. rewrite Hform1.
  set (g := mkForm (template f1) v (bound_value f1) (disabled f1) (onclick f1)).
  set (s2 := with_form (Some g) (render s)).
  assert (state s2 = state s) as Hs2 by done.
  assert (filename_or_empty s2 = filename_or_empty s) as Hfe
    by (unfold filename_or_empty; simpl; by rewrite Hf1).
  destruct (render_frame s2) as (_ & _ & Hp3 & Hl3).
  destruct (render_form s2) as (f3 & Hform3 & _ & Hd3 & _ & Hkeep);
    [by rewrite Hs2|].
  assert (input_value f3 = v) as Hv.
  { rewrite (Hkeep g); [done..| |].
    - simpl. by rewrite Ht1.
    - rewrite Hs2, Hfe. simpl. apply Hb1. }
  unfold _filenameInput, _submitButton_disabled. rewrite Hform3. simpl.
  rewrite Hv, Hd3, Hp3, Hl3. split_and!; [done| |done..].
  unfold _filenameInputValid, _filenameInput. simpl. by rewrite Hp1.
Qed.

(** ** The claim *)




(** What Enter does on the two forms of the witness. *)
Example enter_on_valid_name :
  log (_onFilenameInputKeydown true
         (input_event "b.js" (render opened_newfile)))
  = [PreventDefault; SurfaceClose; AddFile "b.js"; NewFileEvent "b.js"].
Proof. reflexivity. Qed.

Example enter_on_invalid_name :
  log (_onFilenameInputKeydown true
         (input_event "a.js" (render opened_newfile))) = [].
Proof. reflexivity. Qed.

End ControlsFacts.

(* ===================================================================== *)
(** * More on the tab bar: events, notifications, key sequences           *)
(* ===================================================================== *)

Module TabBarMore.
Import TabBar TabBarFacts.

(** ** What the setter dispatches *)

Lemma tab_set_active_log t b s :
  log (tab_set_active t b s) =
    log s ++ (if negb (active (heap s t)) && b then [TabChange (Some t)] else []).
Proof.
  unfold tab_set_active. destruct (negb _ && b); simpl; [done|].
  by rewrite app_nil_r.
Qed.

Lemma set_active_log c s :
  log (set_active c s) =
    log s ++
      (if decide (c = _active s) then []
       else match c with
            | None => [TabChange None]
            | Some t => if active (heap s t) then [] else [TabChange (Some t)]
            end).
Proof.
  unfold set_active. case_decide as Hc; [by rewrite app_nil_r|].
  destruct c as [t|], (_active s) as [o|] eqn:Eo; simpl;
    rewrite ?tab_set_active_log, ?tab_set_active_flag, ?andb_false_r,
      ?andb_true_r, ?app_nil_r; simpl; try done.
  - rewrite decide_False by congruence. simpl. by destruct (active (heap s t)).
  - by destruct (active (heap s t)).
Qed.

Lemma tabchanges_app l1 l2 :
  tabchanges (l1 ++ l2) = tabchanges l1 ++ tabchanges l2.
Proof. apply omap_app. Qed.

Lemma synced_flag_off s t :
  synced s → t ∈ _tabs s → _active s ≠ Some t → active (heap s t) = false.
Proof.
  intros Hs Ht Hne. apply not_true_is_false. intros Hon.
  by apply Hne, Hs.
Qed.

(** X4: on a bar where only the active tab carries the flag, a call to the
    setter with one of the bar's tabs or with undefined dispatches exactly
    one 'tabchange', carrying the new active tab, when the active tab
    changes, and nothing otherwise. *)
Theorem set_active_notifies_once s c :
  synced s → (∀ t, c = Some t → t ∈ _tabs s) →
  log (set_active c s) =
    log s ++ (if decide (c = _active s) then [] else [TabChange c]).
Proof.
  intros Hs Hin. rewrite set_active_log. f_equal.
  case_decide as Hc; [done|]. destruct c as [t|]; [|done].
  by rewrite (synced_flag_off s t) by (done || by apply Hin).
Qed.

Lemma set_active_notifies_once_witness :
  log (set_active (Some 2%nat) first_active) = [TabChange (Some 2%nat)] ∧
  log (set_active (Some 0%nat) first_active) = [].
Proof.
  split.
  - apply (set_active_notifies_once first_active (Some 2%nat)).
    + intros r _ Hon. vm_compute in Hon.
      destruct r as [|r]; [reflexivity|discriminate Hon].
    + intros t [= <-]. apply (bool_decide_unpack _). vm_compute. exact I.
  - apply (set_active_notifies_once first_active (Some 0%nat)).
    + intros r _ Hon. vm_compute in Hon.
      destruct r as [|r]; [reflexivity|discriminate Hon].
    + intros t [= <-]. apply (bool_decide_unpack _). vm_compute. exact I.
Defined.

(** ** Resolving the tab of an event *)

(** X1: [_findEventTab] returns the event's target when that is a tab
    element, otherwise the first tab element on the composed path, and
    undefined exactly when neither the target nor any entry of the path
    is a tab element; what it returns is always a tab element. *)
Theorem findEventTab_resolves e :
  match _findEventTab e with
  | Some el =>
      localName el = Some tab_tag ∧
      (target e = Some el ∨
       (target e ≫= localName ≠ Some tab_tag ∧
        ∃ i : nat, composedPath e !! i = Some el ∧
          ∀ (j : nat) el', (j < i)%nat → composedPath e !! j = Some el' →
            localName el' ≠ Some tab_tag))
  | None =>
      target e ≫= localName ≠ Some tab_tag ∧
      ∀ el, el ∈ composedPath e → localName el ≠ Some tab_tag
  end.
Proof.
  unfold _findEventTab. case_decide as Ht.
  - destruct (target e) as [el|] eqn:E; [|done]. simpl in Ht. split; [done|].
    by left.
  - destruct (list_find _ (composedPath e)) as [[i el]|] eqn:E; simpl.
    + apply list_find_Some in E as (Hi & Hl & Hfirst).
      split; [done|]. right. split; [done|]. exists i. split; [done|].
      intros j el' Hlt Hj. by eapply Hfirst.
    + split; [done|]. by rewrite list_find_None, Forall_forall in E.
Qed.

Example findEventTab_nested_click :
  _findEventTab click_in_tab_2 = Some (mkNode (Some tab_tag) 2%nat).
Proof. reflexivity. Qed.

(** ** Activation gestures *)

Lemma activateTab_synced f s : synced s → synced (_activateTab f s).
Proof.
  intros Hs. unfold _activateTab. destruct f as [t|]; [|done].
  case_decide; [done|]. by apply (set_active_synced (Some t)) in Hs.
Qed.

Lemma activateTab_tabs f s : _tabs (_activateTab f s) = _tabs s.
Proof.
  unfold _activateTab. destruct f as [t|]; [|done].
  case_decide; [done|]. simpl. apply set_active_tabs.
Qed.

Lemma activateTab_active t s : _active (_activateTab (Some t) s) = Some t.
Proof.
  unfold _activateTab. case_decide; [done|]. simpl. apply set_active_active.
Qed.

Lemma activateTab_twice f s :
  _activateTab f (_activateTab f s) = _activateTab f s.
Proof.
  destruct f as [t|]; [|done].
  unfold _activateTab at 1. by rewrite activateTab_active, decide_True.
Qed.

(** X2: a click or 'tabchange' event whose tab cannot be resolved, or whose
    tab is already the active one, leaves the bar as it is; any other
    makes the resolved tab the active one and scrolls it into view.  On a
    bar with distinct tabs where only the active tab carries the flag,
    that still holds afterwards, at most one tab carries the flag, and
    handling the same event again changes nothing. *)
Theorem activateTab_event_spec e s :
  NoDup (_tabs s) → synced s →
  synced (_activateTab_event e s) ∧
  single_active (_activateTab_event e s) ∧
  (_findEventTab e = None → _activateTab_event e s = s) ∧
  (∀ el, _findEventTab e = Some el →
     _active (_activateTab_event e s) = Some (node_ref el) ∧
     (_active s = Some (node_ref el) → _activateTab_event e s = s) ∧
     (_active s ≠ Some (node_ref el) →
        _activateTab_event e s
          = emit (ScrollIntoView (node_ref el))
              (set_active (Some (node_ref el)) s))) ∧
  _activateTab_event e (_activateTab_event e s) = _activateTab_event e s.
Proof.
  intros Hnd Hs. unfold _activateTab_event.
  assert (synced (_activateTab (node_ref <$> _findEventTab e) s)) as Hs'
    by by apply activateTab_synced.
  split_and!; [done| | | |apply activateTab_twice].
  - eapply flags_within_single; [|exact Hs']. by rewrite activateTab_tabs.
  - by intros ->.
  - intros el ->. simpl. split_and!.
    + apply activateTab_active.
    + intros Ha. unfold _activateTab. by rewrite decide_True.
    + intros Ha. unfold _activateTab. by rewrite decide_False.
Qed.

Lemma activateTab_event_spec_witness :
  _active (_activateTab_event click_in_tab_2 first_active) = Some 2%nat ∧
  single_active (_activateTab_event click_in_tab_2 first_active).
Proof.
  destruct (activateTab_event_spec click_in_tab_2 first_active)
    as (_ & Hone & _ & Hres & _).
  - apply (bool_decide_unpack _). vm_compute. exact I.
  - intros r _ Hon. vm_compute in Hon.
    destruct r as [|r]; [reflexivity|discriminate Hon].
  - split; [|exact Hone].
    destruct (Hres (mkNode (Some tab_tag) 2%nat)) as (Ha & _); [reflexivity|].
    exact Ha.
Defined.

(** X3: the other direction of the synchronisation.  When some code sets
    the flag of a tab of the bar that is not the active one, the tab
    announces itself once; when the bar handles that announcement the tab
    becomes the bar's active tab, the old active tab's flag is cleared,
    only the active tab carries the flag again, and no further
    'tabchange' is dispatched: the setter finds the flag already set, and
    handling the announcement once more changes nothing. *)
Theorem tab_initiated_activation s t :
  synced s → t ∈ _tabs s → _active s ≠ Some t →
  tabchanges (log (tab_set_active t true s))
    = tabchanges (log s) ++ [Some t] ∧
  tabchanges (log (_activateTab (Some t) (tab_set_active t true s)))
    = tabchanges (log (tab_set_active t true s)) ∧
  _active (_activateTab (Some t) (tab_set_active t true s)) = Some t ∧
  active (heap (_activateTab (Some t) (tab_set_active t true s)) t) = true ∧
  (∀ o, _active s = Some o →
     active (heap (_activateTab (Some t) (tab_set_active t true s)) o) = false) ∧
  synced (_activateTab (Some t) (tab_set_active t true s)) ∧
  _activateTab (Some t) (_activateTab (Some t) (tab_set_active t true s))
    = _activateTab (Some t) (tab_set_active t true s).
Proof.
  intros Hs Ht Hne.
  pose proof (synced_flag_off s t Hs Ht Hne) as Hoff.
  set (s1 := tab_set_active t true s).
  assert (_active s1 = _active s) as Ha1 by apply tab_set_active_active.
  assert (_tabs s1 = _tabs s) as Ht1 by apply tab_set_active_tabs.
  assert (∀ r, active (heap s1 r)
               = if decide (r = t) then true else active (heap s r)) as Hf1
    by (intros r; apply tab_set_active_flag).
  assert (Some t ≠ _active s1) as Hne1 by (rewrite Ha1; congruence).
  assert (_activateTab (Some t) s1
            = emit (ScrollIntoView t) (set_active (Some t) s1)) as Hact.
  { unfold _activateTab. by rewrite decide_False. }
  assert (∀ r, active (heap (_activateTab (Some t) s1) r)
               = if decide (r = t) then true
                 else if decide (_active s = Some r) then false
                 else active (heap s r)) as Hf2.
  { intros r. rewrite Hact. simpl. rewrite set_active_flag by done.
    rewrite Ha1, Hf1. repeat case_decide; congruence. }
  split_and!.
  - unfold s1. rewrite tab_set_active_log, Hoff. simpl.
    by rewrite tabchanges_app.
  - rewrite Hact. simpl. rewrite tabchanges_app, set_active_log.
    rewrite decide_False by done. rewrite Hf1, decide_True by done.
    simpl. by rewrite !app_nil_r.
  - apply activateTab_active.
  - rewrite Hf2. by rewrite decide_True.
  - intros o Ho. rewrite Hf2. rewrite decide_False by congruence.
    by rewrite decide_True.
  - intros r Hr. rewrite activateTab_tabs, Ht1 in Hr.
    rewrite activateTab_active, Hf2.
    repeat case_decide; [congruence|done|]. intros Hon.
    by pose proof (Hs r Hr Hon).
  - apply activateTab_twice.
Qed.

Lemma tab_initiated_activation_witness :
  tabchanges (log (_activateTab (Some 1%nat)
                     (tab_set_active 1%nat true first_active)))
    = [Some 1%nat] ∧
  active (heap (_activateTab (Some 1%nat)
                  (tab_set_active 1%nat true first_active)) 0%nat) = false.
Proof.
  destruct (tab_initiated_activation first_active 1%nat)
    as (H1 & H2 & _ & _ & Hold & _).
  - intros r _ Hon. vm_compute in Hon.
    destruct r as [|r]; [reflexivity|discriminate Hon].
  - apply (bool_decide_unpack _). vm_compute. exact I.
  - discriminate.
  - split.
    + exact (eq_trans H2 H1).
    + apply Hold. reflexivity.
Defined.

(** ** What [_onSlotchange] dispatches *)

(** [_onSlotchange] ends in a call of the setter with the first claimant,
    on a state that differs from the one before only in the tabs' indices
    and in cleared flags. *)
Lemma onSlotchange_as_set_active s items :
  NoDup items →
  ∃ s1, _onSlotchange items s = set_active (first_claimant s items) s1 ∧
    log s1 = log s ∧ _active s1 = _active s ∧ _tabs s1 = items ∧
    (∀ a, first_claimant s items = Some a →
       active (heap s1 a) = active (heap s a)) ∧
    (∀ r, active (heap s1 r) = true → active (heap s r) = true) ∧
    (∀ r, r ∉ items → heap s1 r = heap s r).
Proof.
  intros Hnd. rewrite onSlotchange_unfold.
  set (s0 := with_tabs items s).
  destruct (slot_loop_frame items 0 None s0)
    as (Ht & Ha & Hl & _ & Hout & Hmono).
  destruct (slot_loop_None items 0 s0 Hnd) as (Hfst & _ & Hkeep).
  assert (first_claimant s0 items = first_claimant s items) as Hfc
    by by apply first_claimant_ext.
  rewrite Hfc in Hfst.
  exists (slot_loop items 0 None s0).2.
  split_and!; [by rewrite Hfst|done..| |done|done].
  intros a Hfa. apply Hkeep. by rewrite Hfst.
Qed.

(** X5: when none of the slotted tabs claims to be active while the bar
    has an active tab (it was removed from the slot, say), the bar ends
    with no active tab, the old active tab's flag is cleared, no slotted
    tab carries the flag, and exactly one 'tabchange' is dispatched, with
    undefined. *)
Theorem onSlotchange_nobody_claims s items a :
  NoDup items → _active s = Some a →
  (∀ r, r ∈ items → claims_active s r = false) →
  _active (_onSlotchange items s) = None ∧
  active (heap (_onSlotchange items s) a) = false ∧
  (∀ r, r ∈ items → active (heap (_onSlotchange items s) r) = false) ∧
  log (_onSlotchange items s) = log s ++ [TabChange None].
Proof.
  intros Hnd Ha Hnone.
  assert (first_claimant s items = None) as Hfc by by apply first_claimant_None.
  destruct (onSlotchange_spec s items Hnd) as (_ & _ & Hact & Hoff & _).
  destruct (onSlotchange_as_set_active s items Hnd)
    as (s1 & Heq & Hl1 & Ha1 & _ & _ & _ & _).
  rewrite Hfc in *.
  assert (None ≠ _active s1) as Hne by (rewrite Ha1, Ha; done).
  split_and!; [done| | |].
  - rewrite Heq, set_active_flag by done. rewrite decide_False by done.
    by rewrite decide_True by (by rewrite Ha1).
  - intros r Hr. by apply Hoff.
  - rewrite Heq, set_active_log, Hl1. by rewrite decide_False.
Qed.

Lemma onSlotchange_nobody_claims_witness :
  _active (_onSlotchange [1; 2]%nat first_active) = None ∧
  active (heap (_onSlotchange [1; 2]%nat first_active) 0%nat) = false ∧
  log (_onSlotchange [1; 2]%nat first_active) = [TabChange None].
Proof.
  destruct (onSlotchange_nobody_claims first_active [1; 2]%nat 0%nat)
    as (Ha & Hflag & _ & Hlog).
  - apply (bool_decide_unpack _). vm_compute. exact I.
  - reflexivity.
  - intros r Hr.
    apply elem_of_cons in Hr as [->|Hr]; [reflexivity|].
    apply elem_of_cons in Hr as [->|Hr]; [reflexivity|].
    by apply elem_of_nil in Hr.
  - split_and!; [exact Ha|exact Hflag|exact Hlog].
Defined.

(** X6: what [_onSlotchange] dispatches on a list of distinct tabs.
    Nothing, when the first claimant is the tab that was active already
    (or nobody claims and no tab was active): slotting other tabs in or
    out does not announce a change.  Otherwise one 'tabchange': with
    undefined when nobody claims, and from the winning tab when its flag
    was not set yet; a winner whose flag was set already is not announced
    again. *)
Theorem onSlotchange_dispatches s items :
  NoDup items →
  log (_onSlotchange items s) =
    log s ++
      (if decide (first_claimant s items = _active s) then []
       else match first_claimant s items with
            | None => [TabChange None]
            | Some t => if active (heap s t) then [] else [TabChange (Some t)]
            end).
Proof.
  intros Hnd.
  destruct (onSlotchange_as_set_active s items Hnd)
    as (s1 & -> & Hl1 & Ha1 & _ & Hkeep & _ & _).
  rewrite set_active_log, Hl1, Ha1. f_equal.
  case_decide; [done|].
  destruct (first_claimant s items) as [t|]; [|done]. by rewrite Hkeep.
Qed.

Lemma onSlotchange_dispatches_witness :
  log (_onSlotchange [0; 1; 2]%nat first_active) = [] ∧
  log (_onSlotchange [0; 1; 2]%nat marked_tabs) = [TabChange (Some 1%nat)].
Proof.
  split.
  - apply (onSlotchange_dispatches first_active [0; 1; 2]%nat).
    apply (bool_decide_unpack _). vm_compute. exact I.
  - apply (onSlotchange_dispatches marked_tabs [0; 1; 2]%nat).
    apply (bool_decide_unpack _). vm_compute. exact I.
Defined.

(** ** Running [_onSlotchange] again *)

Lemma Tab_ext (x y : Tab) :
  index x = index y → active x = active y → attr_active x = attr_active y →
  x = y.
Proof. destruct x, y. simpl. congruence. Qed.

Lemma onSlotchange_attr s items r :
  attr_active (heap (_onSlotchange items s) r) = attr_active (heap s r).
Proof.
  rewrite onSlotchange_unfold, set_active_attr.
  by destruct (slot_loop_frame items 0 None (with_tabs items s))
    as (_ & _ & _ & -> & _).
Qed.

(** After [_onSlotchange] the first claimant is the active tab. *)
Lemma onSlotchange_first_claimant s items :
  NoDup items →
  first_claimant (_onSlotchange items s) items = _active (_onSlotchange items s).
Proof.
  intros Hnd.
  destruct (onSlotchange_spec s items Hnd) as (_ & _ & Ha & Hoff & Hon).
  rewrite Ha. destruct (first_claimant s items) as [a|] eqn:Efc.
  - apply first_claimant_Some in Efc as Hfc. destruct Hfc as (i & Hi & Hc & Hfirst).
    apply first_claimant_Some. exists i. split_and!; [done| |].
    + unfold claims_active. rewrite onSlotchange_attr.
      destruct (decide (_active s = Some a ∧ active (heap s a) = false))
        as [[_ Hflag]|Hno].
      * unfold claims_active in Hc. rewrite Hflag in Hc. simpl in Hc.
        rewrite Hc. apply orb_true_r.
      * rewrite Hon; [done..|].
        destruct (decide (_active s = Some a)) as [Hact|]; [|by left].
        right. apply not_false_is_true. intros Hflag. by apply Hno.
    + intros j r' Hlt Hj. unfold claims_active. rewrite onSlotchange_attr.
      pose proof (Hfirst j r' Hlt Hj) as Hc'. unfold claims_active in Hc'.
      apply orb_false_iff in Hc' as [_ ->]. rewrite orb_false_r.
      apply Hoff; [by eapply list_elem_of_lookup_2|].
      intros [= <-]. pose proof (NoDup_lookup _ _ _ _ Hnd Hi Hj). lia.
  - apply first_claimant_None. intros r Hr.
    unfold claims_active. rewrite onSlotchange_attr.
    pose proof (proj1 (first_claimant_None s items) Efc r Hr) as Hc.
    unfold claims_active in Hc. apply orb_false_iff in Hc as [_ ->].
    rewrite orb_false_r. by apply Hoff.
Qed.

(** X24: [_onSlotchange] is idempotent on distinct tabs: run again with
    the same tabs, it leaves the list of tabs, the active tab and every
    tab element as they are, and dispatches nothing. *)
Theorem onSlotchange_again s items :
  NoDup items →
  _tabs (_onSlotchange items (_onSlotchange items s))
    = _tabs (_onSlotchange items s) ∧
  _active (_onSlotchange items (_onSlotchange items s))
    = _active (_onSlotchange items s) ∧
  log (_onSlotchange items (_onSlotchange items s))
    = log (_onSlotchange items s) ∧
  ∀ r, heap (_onSlotchange items (_onSlotchange items s)) r
       = heap (_onSlotchange items s) r.
Proof.
  intros Hnd. set (s' := _onSlotchange items s).
  pose proof (onSlotchange_first_claimant s items Hnd) as Hfc. fold s' in Hfc.
  destruct (onSlotchange_spec s items Hnd) as (Ht' & Hidx' & _ & _ & _).
  fold s' in Ht', Hidx'.
  pose proof (onSlotchange_synced s items Hnd) as Hsync. fold s' in Hsync.
  destruct (onSlotchange_spec s' items Hnd) as (Ht & Hidx & Ha & _ & _).
  destruct (onSlotchange_as_set_active s' items Hnd)
    as (s1 & Heq & Hl1 & Ha1 & _ & Hkeep & Hmono & Hout).
  assert (_onSlotchange items s' = s1) as Hs1.
  { rewrite Heq, Hfc, <-Ha1. apply set_active_same. }
  split_and!; [by rewrite Ht, Ht'|by rewrite Ha, Hfc| |].
  - by rewrite Hs1, Hl1.
  - intros r. destruct (decide (r ∈ items)) as [Hin|Hnotin].
    + apply Tab_ext.
      * apply list_elem_of_lookup_1 in Hin as [i Hi].
        by rewrite (Hidx i r Hi), (Hidx' i r Hi).
      * rewrite Hs1. destruct (active (heap s' r)) eqn:Eon.
        -- rewrite Hkeep; [done|]. rewrite Hfc. apply Hsync; [|done].
           by rewrite Ht'.
        -- apply not_true_is_false. intros Hon%Hmono. congruence.
      * by rewrite onSlotchange_attr.
    + rewrite Hs1. by apply Hout.
Qed.

Lemma onSlotchange_again_witness :
  _active (_onSlotchange [0; 1; 2]%nat (_onSlotchange [0; 1; 2]%nat marked_tabs))
    = Some 1%nat ∧
  log (_onSlotchange [0; 1; 2]%nat (_onSlotchange [0; 1; 2]%nat marked_tabs))
    = [TabChange (Some 1%nat)].
Proof.
  destruct (onSlotchange_again marked_tabs [0; 1; 2]%nat)
    as (_ & Ha & Hl & _).
  - apply (bool_decide_unpack _). vm_compute. exact I.
  - split; [rewrite Ha|rewrite Hl]; reflexivity.
Defined.

(** ** Well-formed bars *)

Lemma well_formed_oldIdx s :
  well_formed s →
  0 ≤ oldIdx s ≤ Z.max 0 (Z.of_nat (length (_tabs s)) - 1).
Proof.
  intros (_ & Hidx & Hlisted & _). unfold oldIdx.
  destruct (_active s) as [a|] eqn:Ea; [|lia].
  destruct (list_elem_of_lookup_1 _ _ (Hlisted a Ea)) as [i Hi].
  rewrite (Hidx i a Hi). apply lookup_lt_Some in Hi. lia.
Qed.

Lemma well_formed_active_at s a :
  well_formed s → _active s = Some a → tab_at (_tabs s) (oldIdx s) = Some a.
Proof.
  intros (_ & Hidx & Hlisted & _) Ea. unfold oldIdx, tab_at. rewrite Ea.
  destruct (list_elem_of_lookup_1 _ _ (Hlisted a Ea)) as [i Hi].
  rewrite (Hidx i a Hi). case_ltb; [lia|]. by rewrite Nat2Z.id.
Qed.

Lemma set_active_well_formed t s :
  well_formed s → t ∈ _tabs s → well_formed (set_active (Some t) s).
Proof.
  intros (Hnd & Hidx & Hlisted & Hs) Ht. split_and!.
  - by rewrite set_active_tabs.
  - intros i r. rewrite set_active_tabs, set_active_index. apply Hidx.
  - intros a. rewrite set_active_active, set_active_tabs. by intros [= <-].
  - by apply set_active_synced.
Qed.

Lemma emit_well_formed e s : well_formed s → well_formed (emit e s).
Proof. done. Qed.

(** A key press on a well-formed bar. *)
Lemma press_spec key s :
  well_formed s →
  (_onKeydown key s).2 = Fulfilled ∧
  well_formed (press key s) ∧
  _tabs (press key s) = _tabs s ∧
  newIdx key s = step_index (Z.of_nat (length (_tabs s))) (oldIdx s) key ∧
  oldIdx (press key s) = newIdx key s ∧
  (newIdx key s ≠ oldIdx s →
     ∃ t, tab_at (_tabs s) (newIdx key s) = Some t ∧
       press key s = emit (Focus t) (set_active (Some t) s)).
Proof.
  intros Hwf. pose proof (well_formed_oldIdx s Hwf) as Hrange.
  assert (newIdx key s = step_index (Z.of_nat (length (_tabs s))) (oldIdx s) key)
    as Hstep.
  { unfold newIdx, step_index. destruct key; case_ltb; lia. }
  destruct (decide (newIdx key s = oldIdx s)) as [Hsame|Hmove].
  { unfold press. rewrite (onKeydown_same_index key s Hsame). simpl.
    split_and!; [done..|]. by intros []. }
  assert (0 ≤ newIdx key s < Z.of_nat (length (_tabs s))) as Hin.
  { rewrite Hstep in *. unfold step_index in *. destruct key; lia. }
  destruct (lookup_lt_is_Some_2 (_tabs s) (Z.to_nat (newIdx key s)))
    as [t Ht]; [lia|].
  assert (tab_at (_tabs s) (newIdx key s) = Some t) as Hat.
  { unfold tab_at. case_ltb; [lia|done]. }
  unfold press. rewrite (onKeydown_moves key s t Hmove Hat). simpl.
  assert (t ∈ _tabs s) as Hlisted by by eapply list_elem_of_lookup_2.
  split_and!; [done| |apply set_active_tabs|done| |].
  - by apply emit_well_formed, set_active_well_formed.
  - unfold oldIdx. simpl. rewrite set_active_active, set_active_index.
    destruct Hwf as (_ & Hidx & _). rewrite (Hidx _ t Ht). lia.
  - intros _. by exists t.
Qed.

Lemma presses_snoc keys key s :
  presses (keys ++ [key]) s = press key (presses keys s).
Proof. unfold presses. by rewrite foldl_snoc. Qed.

(** X7: [_onSlotchange] on distinct tabs leaves a well-formed bar: every
    tab carries its position as index, the active tab is one of the
    bar's tabs, and only it carries the flag. *)
Theorem onSlotchange_well_formed s items :
  NoDup items → well_formed (_onSlotchange items s).
Proof.
  intros Hnd.
  destruct (onSlotchange_spec s items Hnd) as (Ht & Hidx & Ha & _ & _).
  split_and!.
  - by rewrite Ht.
  - intros i r. rewrite Ht. apply Hidx.
  - intros a. rewrite Ha, Ht. intros (i & Hi & _)%first_claimant_Some.
    by eapply list_elem_of_lookup_2.
  - by apply onSlotchange_synced.
Qed.

Lemma onSlotchange_well_formed_witness :
  well_formed (_onSlotchange [0; 1; 2]%nat marked_tabs).
Proof.
  apply (onSlotchange_well_formed marked_tabs [0; 1; 2]%nat).
  apply (bool_decide_unpack _). vm_compute. exact I.
Defined.

(** X8: on a well-formed bar every sequence of key presses keeps the bar
    well-formed and keeps its list of tabs, no handler's promise is
    rejected, and the index the next press starts from is the one a
    counter that stops at both ends reaches from the starting index; when
    a tab was active at the start, the active tab is the tab at that
    position. *)
Theorem presses_follow_counter keys s :
  well_formed s →
  well_formed (presses keys s) ∧
  _tabs (presses keys s) = _tabs s ∧
  Forall (λ o, o = Fulfilled) (outcomes keys s) ∧
  oldIdx (presses keys s)
    = foldl (step_index (Z.of_nat (length (_tabs s)))) (oldIdx s) keys ∧
  (is_Some (_active s) →
     _active (presses keys s)
       = tab_at (_tabs s) (oldIdx (presses keys s))).
Proof.
  revert s. induction keys as [|key keys IH]; intros s Hwf.
  { split_and!; [done..|constructor|done|].
    intros [a Ha]. unfold presses. simpl.
    by rewrite (well_formed_active_at s a), Ha. }
  destruct (press_spec key s Hwf) as (Hok & Hwf' & Ht' & Hstep & Hold' & Hmove).
  destruct (IH (press key s) Hwf') as (Hwf'' & Ht'' & Hall & Hcount & Hact).
  change (presses (key :: keys) s) with (presses keys (press key s)).
  split_and!; [done|by rewrite Ht''| | |].
  - simpl. by constructor.
  - rewrite Hcount, Ht', Hold', Hstep. done.
  - intros Hsome. rewrite Hact, Ht'; [done|].
    destruct (decide (newIdx key s = oldIdx s)) as [Hsame|Hne].
    + unfold press. by rewrite (onKeydown_same_index key s Hsame).
    + destruct (Hmove Hne) as (t & _ & ->). simpl.
      rewrite set_active_active. by exists t.
Qed.

Lemma presses_follow_counter_witness :
  oldIdx (presses [ArrowRight; ArrowRight; ArrowRight; ArrowLeft] first_active)
    = 1 ∧
  _active (presses [ArrowRight; ArrowRight; ArrowRight; ArrowLeft] first_active)
    = Some 1%nat.
Proof.
  destruct (presses_follow_counter
              [ArrowRight; ArrowRight; ArrowRight; ArrowLeft] first_active)
    as (_ & _ & _ & Hcount & Hact).
  - split_and!.
    + apply (bool_decide_unpack _). vm_compute. exact I.
    + intros i r Hi.
      destruct i as [|[|[|i]]]; simpl in Hi; try discriminate Hi;
        injection Hi as <-; reflexivity.
    + intros a [= <-]. apply (bool_decide_unpack _). vm_compute. exact I.
    + intros r _ Hon. vm_compute in Hon.
      destruct r as [|r]; [reflexivity|discriminate Hon].
  - split; [exact Hcount|].
    rewrite Hact by (by exists 0%nat). rewrite Hcount. reflexivity.
Defined.

(** ** Holding a key, going back and forth *)

Lemma presses_replicate_S k key s :
  presses (replicate (S k) key) s = presses (replicate k key) (press key s).
Proof. done. Qed.

Lemma replicate_presses k key s :
  well_formed s →
  well_formed (presses (replicate k key) s) ∧
  _tabs (presses (replicate k key) s) = _tabs s ∧
  (is_Some (_active s) → is_Some (_active (presses (replicate k key) s))) ∧
  oldIdx (presses (replicate k key) s) =
    match key with
    | ArrowLeft => Z.max 0 (oldIdx s - Z.of_nat k)
    | ArrowRight =>
        Z.min (Z.max 0 (Z.of_nat (length (_tabs s)) - 1)) (oldIdx s + Z.of_nat k)
    | OtherKey => oldIdx s
    end.
Proof.
  revert s. induction k as [|k IH]; intros s Hwf.
  { pose proof (well_formed_oldIdx s Hwf). split_and!; [done..|].
    unfold presses. simpl. destruct key; lia. }
  destruct (press_spec key s Hwf) as (_ & Hwf' & Ht' & Hstep & Hold' & Hmove).
  destruct (IH (press key s) Hwf') as (Hwf'' & Ht'' & Hsome & Hcount).
  rewrite presses_replicate_S.
  pose proof (well_formed_oldIdx s Hwf).
  split_and!; [done|by rewrite Ht''| |].
  - intros Ha. apply Hsome.
    destruct (decide (newIdx key s = oldIdx s)) as [Hsame|Hne].
    + unfold press. by rewrite (onKeydown_same_index key s Hsame).
    + destruct (Hmove Hne) as (t & _ & ->). simpl.
      rewrite set_active_active. by exists t.
  - rewrite Hcount, Ht', Hold', Hstep. unfold step_index. destruct key; lia.
Qed.

(** X9: holding an arrow key does not wrap around.  On a well-formed bar
    with an active tab, enough presses of ArrowRight end on the last tab
    and enough presses of ArrowLeft on the first one, and further presses
    stay there. *)
Theorem arrow_keys_saturate (k : nat) s :
  well_formed s → is_Some (_active s) →
  (Z.of_nat (length (_tabs s)) - 1 ≤ oldIdx s + Z.of_nat k →
     _active (presses (replicate k ArrowRight) s) = last (_tabs s)) ∧
  (oldIdx s ≤ Z.of_nat k →
     _active (presses (replicate k ArrowLeft) s) = head (_tabs s)).
Proof.
  intros Hwf Hsome.
  pose proof (well_formed_oldIdx s Hwf) as Hrange.
  assert (1 ≤ Z.of_nat (length (_tabs s))) as Hlen.
  { destruct Hsome as [a Ha]. destruct Hwf as (_ & _ & Hlisted & _).
    apply Hlisted, list_elem_of_lookup_1 in Ha as [i Hi].
    apply lookup_lt_Some in Hi. lia. }
  split; intros Hk.
  - destruct (replicate_presses k ArrowRight s Hwf)
      as (Hwf' & Ht' & Hsome' & Hidx').
    destruct (Hsome' Hsome) as [b Hb].
    pose proof (well_formed_active_at _ b Hwf' Hb) as Hat.
    rewrite Hb, <-Hat, Ht', Hidx', last_lookup. unfold tab_at.
    case_ltb; [lia|]. f_equal. lia.
  - destruct (replicate_presses k ArrowLeft s Hwf)
      as (Hwf' & Ht' & Hsome' & Hidx').
    destruct (Hsome' Hsome) as [b Hb].
    pose proof (well_formed_active_at _ b Hwf' Hb) as Hat.
    rewrite Hb, <-Hat, Ht', Hidx', head_lookup. unfold tab_at.
    case_ltb; [lia|]. f_equal. lia.
Qed.

Lemma arrow_keys_saturate_witness :
  _active (presses (replicate 5 ArrowRight) first_active) = Some 2%nat ∧
  _active (presses (replicate 5 ArrowLeft) first_active) = Some 0%nat.
Proof.
  destruct (arrow_keys_saturate 5 first_active) as [Hr Hl].
  - split_and!.
    + apply (bool_decide_unpack _). vm_compute. exact I.
    + intros i r Hi.
      destruct i as [|[|[|i]]]; simpl in Hi; try discriminate Hi;
        injection Hi as <-; reflexivity.
    + intros a [= <-]. apply (bool_decide_unpack _). vm_compute. exact I.
    + intros r _ Hon. vm_compute in Hon.
      destruct r as [|r]; [reflexivity|discriminate Hon].
  - by exists 0%nat.
  - split; [apply Hr|apply Hl]; vm_compute; discriminate.
Defined.

(** X10: stepping right and then left again, from an active tab that is
    not the last, restores the bar: the same tab is active and every tab
    element is as it was (index, flag and attribute); so does stepping
    left and then right from an active tab that is not the first. *)
Theorem step_and_back_restores s a :
  well_formed s → _active s = Some a → active (heap s a) = true →
  (oldIdx s + 1 < Z.of_nat (length (_tabs s)) →
     _active (presses [ArrowRight; ArrowLeft] s) = Some a ∧
     ∀ r, heap (presses [ArrowRight; ArrowLeft] s) r = heap s r) ∧
  (0 < oldIdx s →
     _active (presses [ArrowLeft; ArrowRight] s) = Some a ∧
     ∀ r, heap (presses [ArrowLeft; ArrowRight] s) r = heap s r).
Proof.
  intros Hwf Ha Hon.
  pose proof (well_formed_oldIdx s Hwf) as Hrange.
  pose proof (well_formed_active_at s a Hwf Ha) as Hat.
  assert (∀ k1 k2,
    newIdx k1 s ≠ oldIdx s →
    step_index (Z.of_nat (length (_tabs s))) (newIdx k1 s) k2 = oldIdx s →
    _active (presses [k1; k2] s) = Some a ∧
    ∀ r, heap (presses [k1; k2] s) r = heap s r) as Hback.
  { intros k1 k2 Hmove Hret.
    destruct (press_spec k1 s Hwf) as (_ & Hwf1 & Ht1 & _ & Hold1 & Hm1).
    destruct (Hm1 Hmove) as (t & Htat & Hp1).
    destruct (press_spec k2 (press k1 s) Hwf1) as (_ & _ & _ & Hstep2 & _ & Hm2).
    rewrite Ht1, Hold1, Hret in Hstep2.
    assert (newIdx k2 (press k1 s) ≠ oldIdx (press k1 s)) as Hmove2
      by (rewrite Hstep2, Hold1; congruence).
    destruct (Hm2 Hmove2) as (t' & Htat' & Hp2).
    rewrite Ht1, Hstep2, Hat in Htat'. injection Htat' as <-.
    change (presses [k1; k2] s) with (press k2 (press k1 s)).
    rewrite Hp2. simpl.
    assert (t ≠ a) as Hta.
    { intros ->. apply Hmove. destruct Hwf as (Hnd & Hidx & _).
      unfold tab_at in Htat, Hat. revert Htat Hat. case_ltb; try done.
      intros Ht Ha'. pose proof (NoDup_lookup _ _ _ _ Hnd Ht Ha'). lia. }
    assert (_active (press k1 s) = Some t) as Hact1
      by (rewrite Hp1; simpl; apply set_active_active).
    assert (t ∈ _tabs s) as Htin.
    { unfold tab_at in Htat. revert Htat. case_ltb; [done|].
      apply list_elem_of_lookup_2. }
    split; [apply set_active_active|].
    intros r.
    assert (∀ x y : Tab, index x = index y → active x = active y →
              attr_active x = attr_active y → x = y) as Hext
      by (intros [] []; simpl; congruence).
    apply Hext.
    + rewrite set_active_index, Hp1. simpl. apply set_active_index.
    + rewrite set_active_flag by (rewrite Hact1; congruence).
      rewrite Hact1, Hp1. simpl.
      rewrite set_active_flag by (rewrite Ha; congruence). rewrite Ha.
      destruct Hwf as (_ & _ & _ & Hs).
      repeat case_decide; simplify_eq; try done.
      symmetry. by apply synced_flag_off; [| |congruence].
    + rewrite set_active_attr, Hp1. simpl. apply set_active_attr. }
  split; intros Hroom; apply Hback; unfold newIdx, step_index;
    case_ltb; lia.
Qed.

Lemma step_and_back_restores_witness :
  _active (presses [ArrowRight; ArrowLeft] first_active) = Some 0%nat ∧
  ∀ r, heap (presses [ArrowRight; ArrowLeft] first_active) r
       = heap first_active r.
Proof.
  destruct (step_and_back_restores first_active 0%nat) as [Hr _].
  - split_and!.
    + apply (bool_decide_unpack _). vm_compute. exact I.
    + intros i r Hi.
      destruct i as [|[|[|i]]]; simpl in Hi; try discriminate Hi;
        injection Hi as <-; reflexivity.
    + intros a [= <-]. apply (bool_decide_unpack _). vm_compute. exact I.
    + intros r _ Hon. vm_compute in Hon.
      destruct r as [|r]; [reflexivity|discriminate Hon].
  - reflexivity.
  - reflexivity.
  - apply Hr. vm_compute. reflexivity.
Defined.

(** ** When the key handler fails *)

(** X11: the promise of [_onKeydown] is rejected exactly when the index
    moved and no tab is at the new index.  That needs an active tab whose
    index lies outside the bar (below -1 or above the number of tabs);
    the setter has then already run with undefined: the bar is left with
    no active tab, the old tab's flag is cleared and a 'tabchange' with
    undefined is dispatched, but nothing receives focus. *)
Theorem onKeydown_rejected key s :
  ((_onKeydown key s).2 = Rejected ↔
     newIdx key s ≠ oldIdx s ∧ tab_at (_tabs s) (newIdx key s) = None) ∧
  ((_onKeydown key s).2 = Rejected →
     ∃ a, _active s = Some a ∧
       (index (heap s a) < -1 ∨ Z.of_nat (length (_tabs s)) < index (heap s a)) ∧
       _active (press key s) = None ∧
       active (heap (press key s) a) = false ∧
       log (press key s) = log s ++ [TabChange None]).
Proof.
  assert ((_onKeydown key s).2 = Rejected ↔
            newIdx key s ≠ oldIdx s ∧ tab_at (_tabs s) (newIdx key s) = None)
    as Hiff.
  { unfold _onKeydown. case_decide as Hsame; simpl.
    - split; [done|]. by intros [? _].
    - destruct (tab_at (_tabs s) (newIdx key s)); simpl; split; try done.
      by intros [_ ?]. }
  split; [done|]. intros [Hmove Hnone]%Hiff.
  assert (0 ≤ newIdx key s → Z.of_nat (length (_tabs s)) ≤ newIdx key s) as Hout.
  { intros Hge. unfold tab_at in Hnone. revert Hnone. case_ltb; [lia|].
    intros Hnone%lookup_ge_None. lia. }
  destruct (_active s) as [a|] eqn:Ea.
  - exists a. split; [done|].
    assert (oldIdx s = index (heap s a)) as Hold by (unfold oldIdx; by rewrite Ea).
    assert (press key s = set_active None s) as ->.
    { unfold press, _onKeydown. rewrite decide_False by done. by rewrite Hnone. }
    assert (None ≠ _active s) as Hne by (by rewrite Ea).
    split_and!.
    + rewrite <-Hold. revert Hmove Hout. unfold newIdx.
      destruct key; case_ltb; lia.
    + apply set_active_active.
    + rewrite set_active_flag by done. rewrite decide_False by done.
      by rewrite decide_True.
    + rewrite set_active_log. by rewrite decide_False.
  - exfalso. assert (oldIdx s = 0) as Hold by (unfold oldIdx; by rewrite Ea).
    revert Hmove Hout. unfold newIdx. rewrite Hold.
    destruct key; case_ltb; lia.
Qed.

(** An active tab with a stale index: ArrowLeft from index 5 on a bar of
    three tabs. *)
Example onKeydown_stale_index :
  let s := mkBar (λ r, mkTab 5 (bool_decide (r = 0%nat)) false)
             [0; 1; 2]%nat (Some 0%nat) [] in
  (_onKeydown ArrowLeft s).2 = Rejected ∧
  _active (press ArrowLeft s) = None ∧
  log (press ArrowLeft s) = [TabChange None].
Proof. vm_compute. by split_and!. Qed.

End TabBarMore.

(* ===================================================================== *)
(** * More on the active file: safety, stabilisation, tab and file events *)
(* ===================================================================== *)

Module FileTabBarMore.
Import FileTabBar FileTabBarFacts.

(** ** Reading the two searches backwards *)

Lemma same_name_index_inv s k :
  same_name_index s = Some k →
  _activeFileName s ≠ "" ∧ k = findIndex (_activeFileName s) (_visibleFiles s) ∧
  ∃ f, 0 ≤ k ∧ _visibleFiles s !! Z.to_nat k = Some f ∧
       name f = _activeFileName s.
Proof.
  unfold same_name_index. case_decide as Hn; [done|].
  destruct (Z.leb_spec 0 (findIndex (_activeFileName s) (_visibleFiles s)))
    as [Hge|]; [|done].
  intros [= <-]. split_and!; [done..|].
  destruct (findIndex_nonneg_inv _ _ Hge) as (f & Hf & Hname).
  by exists f.
Qed.

Lemma scan_from_inv (vis : list File) (i k : nat) f :
  scan_from vis i = Some (k, f) →
  (k ≤ i)%nat ∧ vis !! k = Some f ∧ hidden f = false.
Proof.
  induction i as [|i IH]; simpl.
  - destruct (vis !! 0%nat) as [g|] eqn:Eg; [|done].
    destruct (hidden g) eqn:Eh; simpl; [done|]. by intros [= <- <-].
  - destruct (vis !! S i) as [g|] eqn:Eg.
    + destruct (hidden g) eqn:Eh; simpl.
      * intros (? & ? & ?)%IH. split_and!; [lia|done..].
      * by intros [= <- <-].
    + intros (? & ? & ?)%IH. split_and!; [lia|done..].
Qed.

Lemma scan_left_inv (vis : list File) start (k : nat) f :
  scan_left vis start = Some (k, f) →
  Z.of_nat k ≤ start ∧ vis !! k = Some f ∧ hidden f = false.
Proof.
  unfold scan_left. destruct (Z.ltb_spec start 0); [done|].
  intros (? & ? & ?)%scan_from_inv. split_and!; [lia|done..].
Qed.

Lemma scan_from_None_inv (vis : list File) (i : nat) :
  scan_from vis i = None → vis !! 0%nat = None ∨
  ∃ g, vis !! 0%nat = Some g ∧ hidden g = true.
Proof.
  induction i as [|i IH]; simpl.
  - destruct (vis !! 0%nat) as [g|] eqn:Eg; [|by left].
    destruct (hidden g) eqn:Eh; simpl; [|done]. right. by exists g.
  - destruct (vis !! S i) as [g|] eqn:Eg; [|done].
    destruct (hidden g); simpl; done.
Qed.

Lemma same_name_index_with_index i s :
  same_name_index (with_index i s) = same_name_index s.
Proof. done. Qed.

Lemma same_name_index_of_visible s (k : nat) f :
  _visibleFiles s !! k = Some f → name f ≠ "" →
  ∃ k' : nat, (k' ≤ k)%nat ∧
    same_name_index (with_name (name f) s) = Some (Z.of_nat k') ∧
    ∃ g, _visibleFiles s !! k' = Some g ∧ name g = name f.
Proof.
  intros Hk Hne.
  pose proof (findIndex_le (name f) _ k f Hk eq_refl) as Hle.
  destruct (findIndex_nonneg_inv (name f) (_visibleFiles s)) as (g & Hg & Hn);
    [lia|].
  exists (Z.to_nat (findIndex (name f) (_visibleFiles s))).
  split_and!; [lia| |by exists g].
  unfold same_name_index. simpl. rewrite decide_False by done.
  change (_visibleFiles (with_name (name f) s)) with (_visibleFiles s).
  destruct (Z.leb_spec 0 (findIndex (name f) (_visibleFiles s))); [|lia].
  f_equal. lia.
Qed.

(** When the first block finds the name, one run is enough. *)
Lemma reconcile_fixed_same_name s k :
  same_name_index s = Some k →
  _setNewActiveFile (_setNewActiveFile s) = _setNewActiveFile s.
Proof.
  intros Hk. unfold _setNewActiveFile at 2. rewrite Hk.
  unfold _setNewActiveFile. by rewrite same_name_index_with_index, Hk.
Qed.

Lemma reconcile_project s : _project (_setNewActiveFile s) = _project s.
Proof.
  unfold _setNewActiveFile. destruct (same_name_index s); [done|].
  by destruct (scan_left _ _) as [[? ?]|].
Qed.

Lemma reconcile_visible s : _visibleFiles (_setNewActiveFile s) = _visibleFiles s.
Proof. unfold _visibleFiles. by rewrite reconcile_project. Qed.

(** The three ways [_setNewActiveFile] ends. *)
Lemma reconcile_cases s :
  (∃ k, same_name_index s = Some k ∧ _setNewActiveFile s = with_index k s) ∨
  (same_name_index s = None ∧
   ∃ (k : nat) f, scan_left (_visibleFiles s) (_activeFileIndex s) = Some (k, f) ∧
     _setNewActiveFile s = with_name (name f) s) ∨
  (same_name_index s = None ∧
   scan_left (_visibleFiles s) (_activeFileIndex s) = None ∧
   _setNewActiveFile s = with_name "" (with_index 0 s)).
Proof.
  unfold _setNewActiveFile. destruct (same_name_index s) as [k|].
  - left. by exists k.
  - right. destruct (scan_left _ _) as [[k f]|].
    + left. split; [done|]. by exists k, f.
    + by right.
Qed.

(** After a successful scan, the next run finds the name, or the name is
    empty and the scan repeats itself. *)
Lemma reconcile_after_scan s (k : nat) f :
  scan_left (_visibleFiles s) (_activeFileIndex s) = Some (k, f) →
  (name f = "" ∧
   _setNewActiveFile (with_name (name f) s) = with_name (name f) s) ∨
  (name f ≠ "" ∧ ∃ k' : nat, (k' ≤ k)%nat ∧
     same_name_index (with_name (name f) s) = Some (Z.of_nat k') ∧
     _setNewActiveFile (with_name (name f) s)
       = with_index (Z.of_nat k') (with_name (name f) s) ∧
     ∃ g, _visibleFiles s !! k' = Some g ∧ name g = name f).
Proof.
  intros Hscan. destruct (scan_left_inv _ _ _ _ Hscan) as (_ & Hk & _).
  destruct (decide (name f = "")) as [He|Hne].
  - left. split; [done|]. unfold _setNewActiveFile.
    assert (same_name_index (with_name (name f) s) = None) as ->
      by (unfold same_name_index; by rewrite decide_True).
    change (scan_left (_visibleFiles (with_name (name f) s))
              (_activeFileIndex (with_name (name f) s)))
      with (scan_left (_visibleFiles s) (_activeFileIndex s)).
    by rewrite Hscan.
  - right. split; [done|].
    destruct (same_name_index_of_visible s k f Hk Hne) as (k' & Hle & Hsn & Hg).
    exists k'. split_and!; [done..| |done].
    unfold _setNewActiveFile. by rewrite Hsn.
Qed.

(** ** Safety *)

(** X12: reconciliation never activates a hidden or unknown file: the
    active filename it leaves is empty or the name of a file of the
    project that is not hidden. *)
Theorem reconcile_activates_visible s :
  _activeFileName (_setNewActiveFile s) = "" ∨
  ∃ f, f ∈ default [] (_project s) ∧ hidden f = false ∧
       name f = _activeFileName (_setNewActiveFile s).
Proof.
  assert (∀ (k : nat) f, _visibleFiles s !! k = Some f →
            f ∈ default [] (_project s) ∧ hidden f = false) as Hvis.
  { intros k f Hk. apply list_elem_of_lookup_2 in Hk.
    unfold _visibleFiles in Hk. by apply list_elem_of_filter in Hk as [? ?]. }
  destruct (reconcile_cases s)
    as [(k & Hk & ->)|[(_ & k & f & Hscan & ->)|(_ & _ & ->)]].
  - right. destruct (same_name_index_inv s k Hk) as (_ & _ & f & _ & Hf & Hn).
    exists f. destruct (Hvis _ _ Hf). done.
  - right. destruct (scan_left_inv _ _ _ _ Hscan) as (_ & Hf & _).
    exists f. destruct (Hvis _ _ Hf). done.
  - by left.
Qed.

(** The active file was hidden: its neighbour takes over. *)
Example reconcile_drops_hidden :
  _setNewActiveFile (mkState (Some [secret_js; a_js]) "secret.js" 0)
  = mkState (Some [secret_js; a_js]) "a.js" 0.
Proof. reflexivity. Qed.

(** ** Stabilisation *)

(** X13: reconciliation reaches a fixed point after at most two runs: a
    third run changes nothing, whatever the state. *)
Theorem reconcile_twice_fixed s :
  _setNewActiveFile (_setNewActiveFile (_setNewActiveFile s))
  = _setNewActiveFile (_setNewActiveFile s).
Proof.
  destruct (reconcile_cases s)
    as [(k & Hk & _)|[(_ & k & f & Hscan & ->)|(_ & _ & ->)]].
  - f_equal. by eapply reconcile_fixed_same_name.
  - destruct (reconcile_after_scan s k f Hscan)
      as [(_ & Hfix)|(_ & k' & _ & Hsn & _ & _)]; [by rewrite !Hfix|].
    by eapply reconcile_fixed_same_name.
  - set (t := with_name "" (with_index 0 s)).
    destruct (reconcile_cases t)
      as [(k & Hk & _)|[(_ & k & f & Hscan & Hr)|(_ & _ & Hr)]].
    + by apply same_name_index_inv in Hk as [? _].
    + rewrite Hr.
      destruct (reconcile_after_scan t k f Hscan)
        as [(_ & Hfix)|(_ & k' & Hle & _ & -> & _)]; [by rewrite !Hfix|].
      destruct (scan_left_inv _ _ _ _ Hscan) as (Hk0 & _). simpl in Hk0.
      by assert (k' = 0%nat) as -> by lia.
    + by rewrite Hr.
Qed.

(** X14: when no visible file has an empty name, two runs of the
    reconciliation leave the state consistent: either nothing is visible
    and there is no active file, or the stored index is the position of a
    visible file carrying the active name. *)
Theorem reconcile_twice_consistent s :
  (∀ f, f ∈ _visibleFiles s → name f ≠ "") →
  consistent (_setNewActiveFile (_setNewActiveFile s)).
Proof.
  intros Hnames.
  assert (∀ (k : nat) f, _visibleFiles s !! k = Some f → name f ≠ "") as Hlk.
  { intros k f Hk. by eapply Hnames, list_elem_of_lookup_2. }
  destruct (reconcile_cases s)
    as [(k & Hk & Hr)|[(_ & k & f & Hscan & ->)|(_ & _ & ->)]].
  - rewrite (reconcile_fixed_same_name s k Hk), Hr.
    destruct (same_name_index_inv s k Hk) as (_ & _ & f & Hge & Hf & Hn).
    right. by exists f.
  - destruct (reconcile_after_scan s k f Hscan)
      as [(He & _)|(_ & k' & _ & _ & -> & g & Hg & Hn)].
    + destruct (scan_left_inv _ _ _ _ Hscan) as (_ & Hf & _).
      by destruct (Hlk k f Hf).
    + right. exists g. simpl. split_and!; [lia| |done].
      by rewrite Nat2Z.id.
  - set (t := with_name "" (with_index 0 s)).
    destruct (reconcile_cases t)
      as [(k & Hk & _)|[(_ & k & f & Hscan & ->)|(_ & Hscan & ->)]].
    + by apply same_name_index_inv in Hk as [? _].
    + destruct (scan_left_inv _ _ _ _ Hscan) as (Hk0 & Hf & _).
      simpl in Hk0. assert (k = 0%nat) as -> by lia.
      right. exists f. simpl. by split_and!.
    + left. simpl. split_and!; [|done..].
      change (scan_from (_visibleFiles t) 0 = None) in Hscan.
      apply scan_from_None_inv in Hscan as [Hnone|(g & Hg & Hh)].
      * change (_visibleFiles s !! 0%nat = None) in Hnone.
        change (_visibleFiles s = []).
        destruct (_visibleFiles s); [done|discriminate Hnone].
      * apply visible_lookup_shown in Hg. congruence.
Qed.

Lemma reconcile_twice_consistent_witness :
  consistent (_setNewActiveFile (_setNewActiveFile
                (mkState (Some [a_js; b_js]) "c.js" 2))).
Proof.
  apply (reconcile_twice_consistent (mkState (Some [a_js; b_js]) "c.js" 2)).
  intros f Hf.
  apply elem_of_cons in Hf as [->|Hf]; [discriminate|].
  apply elem_of_cons in Hf as [->|Hf]; [discriminate|].
  by apply elem_of_nil in Hf.
Defined.

(** One run is not always enough: after the last file "c.js" was deleted,
    the first run activates "b.js" but keeps index 2, where no file is. *)
Example reconcile_once_not_consistent :
  ¬ consistent (_setNewActiveFile (mkState (Some [a_js; b_js]) "c.js" 2)).
Proof.
  intros [(Hnil & _)|(f & _ & Hf & _)]; [discriminate Hnil|discriminate Hf].
Qed.

(** X25: when the visible files have distinct, non-empty names, the
    states reconciliation leaves unchanged are exactly the consistent
    ones: a change of the project that keeps the active file where it is
    does not move the active tab, and a state that points nowhere is
    always repaired. *)
Theorem reconcile_fixed_iff_consistent s :
  (∀ f, f ∈ _visibleFiles s → name f ≠ "") →
  NoDup (name <$> _visibleFiles s) →
  _setNewActiveFile s = s ↔ consistent s.
Proof.
  intros Hnames Hnd. split.
  - intros Hfix.
    destruct (reconcile_cases s)
      as [(k & Hk & Hr)|[(Hgone & k & f & Hscan & Hr)|(_ & Hscan & Hr)]].
    + destruct (same_name_index_inv s k Hk) as (_ & _ & f & Hge & Hf & Hn).
      rewrite Hr in Hfix. apply (f_equal _activeFileIndex) in Hfix.
      simpl in Hfix. subst k. right. by exists f.
    + exfalso. destruct (scan_left_inv _ _ _ _ Hscan) as (_ & Hf & _).
      apply list_elem_of_lookup_2 in Hf.
      rewrite Hr in Hfix. apply (f_equal _activeFileName) in Hfix.
      simpl in Hfix.
      apply same_name_index_None in Hgone as [Hempty|Hno].
      * apply (Hnames f Hf). congruence.
      * by apply (Hno f Hf).
    + rewrite Hr in Hfix. left.
      pose proof (f_equal _activeFileName Hfix) as Hn.
      pose proof (f_equal _activeFileIndex Hfix) as Hi. simpl in Hn, Hi.
      split_and!; [|done..].
      rewrite <-Hi in Hscan. change (scan_from (_visibleFiles s) 0 = None) in Hscan.
      apply scan_from_None_inv in Hscan as [Hnone|(g & Hg & Hh)].
      * destruct (_visibleFiles s); [done|discriminate Hnone].
      * apply visible_lookup_shown in Hg. congruence.
  - intros [(Hnil & Hn & Hi)|(f & Hge & Hf & Hn)].
    + unfold _setNewActiveFile.
      rewrite same_name_index_nil, scan_left_none by
        (done || rewrite Hnil; apply none_shown_nil).
      destruct s. simpl in *. by subst.
    + unfold _setNewActiveFile.
      rewrite (same_name_index_Some s (Z.to_nat (_activeFileIndex s)) f);
        [|rewrite <-Hn; apply Hnames; by eapply list_elem_of_lookup_2
         |done..|].
      * rewrite Z2Nat.id by done. by destruct s.
      * intros j g Hlt Hj Hname.
        assert ((name <$> _visibleFiles s) !! j = Some (name g)) as Hj'
          by by rewrite list_lookup_fmap, Hj.
        assert ((name <$> _visibleFiles s) !! Z.to_nat (_activeFileIndex s)
                = Some (name g)) as Hk'
          by (rewrite list_lookup_fmap, Hf; simpl; congruence).
        pose proof (NoDup_lookup _ _ _ _ Hnd Hj' Hk'). lia.
Qed.

Lemma reconcile_fixed_iff_consistent_witness :
  _setNewActiveFile (mkState (Some [a_js; secret_js; b_js]) "b.js" 1)
    = mkState (Some [a_js; secret_js; b_js]) "b.js" 1
  ↔ consistent (mkState (Some [a_js; secret_js; b_js]) "b.js" 1).
Proof.
  apply (reconcile_fixed_iff_consistent
           (mkState (Some [a_js; secret_js; b_js]) "b.js" 1)).
  - intros f Hf.
    apply elem_of_cons in Hf as [->|Hf]; [discriminate|].
    apply elem_of_cons in Hf as [->|Hf]; [discriminate|].
    by apply elem_of_nil in Hf.
  - apply (bool_decide_unpack _). vm_compute. exact I.
Defined.

(** X26: when the active file was the last visible one and is deleted,
    the visible file before it becomes active. *)
Theorem delete_last_activates_left_neighbour (pre : list File) f p s :
  Forall (λ x, hidden x = false ∧ name x ≠ name f) (pre ++ [p]) →
  _activeFileName s = name f →
  _activeFileIndex s = Z.of_nat (length pre) + 1 →
  _activeFileName (_onProjectFilesChanged (pre ++ [p]) s) = name p ∧
  _activeFileIndex (_onProjectFilesChanged (pre ++ [p]) s)
    = Z.of_nat (length pre) + 1.
Proof.
  intros Hall Hname Hidx.
  unfold _onProjectFilesChanged, _setNewActiveFile.
  set (s1 := with_project (Some (pre ++ [p])) s).
  assert (_visibleFiles s1 = pre ++ [p]) as Hvis.
  { apply visible_all_shown; [done|].
    apply Forall_forall. intros x Hx.
    rewrite Forall_forall in Hall. by apply Hall. }
  assert (same_name_index s1 = None) as ->.
  { apply same_name_index_None. right. rewrite Hvis. simpl. rewrite Hname.
    intros x Hx. rewrite Forall_forall in Hall. by apply Hall. }
  assert ((pre ++ [p]) !! length pre = Some p) as Hp
    by by rewrite lookup_app_r, Nat.sub_diag.
  rewrite (scan_left_first _ _ (length pre) p); [done|].
  rewrite Hvis. simpl. rewrite Hidx.
  split_and!; [lia|done| |].
  - rewrite Forall_forall in Hall. apply Hall.
    by eapply list_elem_of_lookup_2.
  - intros j h Hlt Hle Hj. apply lookup_lt_Some in Hj.
    rewrite length_app in Hj. simpl in Hj. lia.
Qed.

Lemma delete_last_activates_left_neighbour_witness :
  _onProjectFilesChanged [a_js; b_js]
    (mkState (Some [a_js; b_js; c_js]) "c.js" 2)
  = mkState (Some [a_js; b_js]) "b.js" 2.
Proof.
  pose proof (delete_last_activates_left_neighbour [a_js] c_js b_js
                (mkState (Some [a_js; b_js; c_js]) "c.js" 2)) as H.
  destruct H as [Hn Hi].
  - apply (bool_decide_unpack _). vm_compute. exact I.
  - reflexivity.
  - reflexivity.
  - reflexivity.
Defined.

(** ** Tab and file events *)

(** X15: when a tab is shown whose name differs from the active one and is
    the name of a visible file, [_onTabActivated] stores that name with
    the position of the file; the state is then consistent, and for a
    non-empty name a reconciliation leaves it as it is. *)
Theorem onTabActivated_visible s filename (k : nat) f :
  filename ≠ _activeFileName s →
  _visibleFiles s !! k = Some f → name f = filename →
  (∀ (j : nat) g, (j < k)%nat → _visibleFiles s !! j = Some g →
     name g ≠ filename) →
  _onTabActivated filename s = with_index (Z.of_nat k) (with_name filename s) ∧
  consistent (_onTabActivated filename s) ∧
  (filename ≠ "" →
     _setNewActiveFile (_onTabActivated filename s) = _onTabActivated filename s).
Proof.
  intros Hne Hk Hn Hfirst.
  assert (_onTabActivated filename s
            = with_index (Z.of_nat k) (with_name filename s)) as ->.
  { unfold _onTabActivated. rewrite decide_False by done.
    change (_visibleFiles (with_name filename s)) with (_visibleFiles s).
    by rewrite (findIndex_found filename _ k f). }
  split_and!; [done| |].
  - right. exists f. simpl. split_and!; [lia| |done]. by rewrite Nat2Z.id.
  - intros Hnonempty. unfold _setNewActiveFile.
    by rewrite (same_name_index_Some _ k f).
Qed.

Lemma onTabActivated_visible_witness :
  _onTabActivated "c.js" (mkState (Some [a_js; secret_js; c_js]) "a.js" 0)
  = mkState (Some [a_js; secret_js; c_js]) "c.js" 1.
Proof.
  destruct (onTabActivated_visible
              (mkState (Some [a_js; secret_js; c_js]) "a.js" 0)
              "c.js" 1%nat c_js) as (Heq & _ & _).
  - discriminate.
  - reflexivity.
  - reflexivity.
  - intros j g Hlt Hj. assert (j = 0%nat) as -> by lia.
    injection Hj as <-. discriminate.
  - exact Heq.
Defined.

(** X16: when a tab is shown whose name is not the name of any visible
    file, [_onTabActivated] stores index -1 with that name; the next
    reconciliation then ends with no active file (empty name, index 0),
    even when files are visible. *)
Theorem onTabActivated_unknown s filename :
  filename ≠ _activeFileName s →
  (∀ f, f ∈ _visibleFiles s → name f ≠ filename) →
  _onTabActivated filename s = with_index (-1) (with_name filename s) ∧
  _activeFileName (_setNewActiveFile (_onTabActivated filename s)) = "" ∧
  _activeFileIndex (_setNewActiveFile (_onTabActivated filename s)) = 0.
Proof.
  intros Hne Hno.
  assert (_onTabActivated filename s
            = with_index (-1) (with_name filename s)) as ->.
  { unfold _onTabActivated. rewrite decide_False by done.
    change (_visibleFiles (with_name filename s)) with (_visibleFiles s).
    by rewrite findIndex_missing. }
  split; [done|]. unfold _setNewActiveFile.
  assert (same_name_index (with_index (-1) (with_name filename s)) = None) as ->.
  { apply same_name_index_None. by right. }
  done.
Qed.

Lemma onTabActivated_unknown_witness :
  _setNewActiveFile
    (_onTabActivated "secret.js" (mkState (Some [a_js; secret_js]) "a.js" 0))
  = mkState (Some [a_js; secret_js]) "" 0.
Proof.
  destruct (onTabActivated_unknown
              (mkState (Some [a_js; secret_js]) "a.js" 0) "secret.js")
    as (Heq & Hname & Hidx).
  - discriminate.
  - intros f Hf. apply elem_of_cons in Hf as [->|Hf]; [discriminate|].
    by apply elem_of_nil in Hf.
  - rewrite Heq in *. reflexivity.
Defined.

(** X17: creating a file.  Once the project lists the new file among its
    visible files and the 'newFile' event has stored its non-empty name,
    the reconciliation that the update runs makes it the active file at
    its position, whatever was active before; the state is consistent and
    further reconciliations change nothing. *)
Theorem new_file_becomes_active s files filename (k : nat) f :
  filename ≠ "" →
  filter (λ x, hidden x = false) files !! k = Some f → name f = filename →
  (∀ (j : nat) g, (j < k)%nat →
     filter (λ x, hidden x = false) files !! j = Some g → name g ≠ filename) →
  _setNewActiveFile (_onNewFile filename (_onProjectFilesChanged files s))
    = mkState (Some files) filename (Z.of_nat k) ∧
  consistent (mkState (Some files) filename (Z.of_nat k)) ∧
  _setNewActiveFile (mkState (Some files) filename (Z.of_nat k))
    = mkState (Some files) filename (Z.of_nat k).
Proof.
  intros Hne Hk Hn Hfirst.
  assert (∀ i, same_name_index (mkState (Some files) filename i)
               = Some (Z.of_nat k)) as Hsn.
  { intros i. by apply (same_name_index_Some _ k f). }
  split_and!.
  - unfold _onNewFile, _onProjectFilesChanged.
    set (t := _setNewActiveFile (with_project (Some files) s)).
    assert (_project t = Some files) as Hp by apply reconcile_project.
    unfold _setNewActiveFile.
    assert (with_name filename t
              = mkState (Some files) filename (_activeFileIndex t)) as ->
      by (unfold with_name; by rewrite Hp).
    by rewrite Hsn.
  - right. exists f. simpl. split_and!; [lia| |done]. by rewrite Nat2Z.id.
  - unfold _setNewActiveFile. by rewrite Hsn.
Qed.

Lemma new_file_becomes_active_witness :
  _setNewActiveFile
    (_onNewFile "c.js"
       (_onProjectFilesChanged [a_js; secret_js; c_js]
          (mkState (Some [a_js; secret_js]) "a.js" 0)))
  = mkState (Some [a_js; secret_js; c_js]) "c.js" 1.
Proof.
  destruct (new_file_becomes_active
              (mkState (Some [a_js; secret_js]) "a.js" 0)
              [a_js; secret_js; c_js] "c.js" 1%nat c_js) as (Heq & _ & _).
  - discriminate.
  - reflexivity.
  - reflexivity.
  - intros j g Hlt Hj. assert (j = 0%nat) as -> by lia.
    injection Hj as <-. discriminate.
  - exact Heq.
Defined.

End FileTabBarMore.

(* ===================================================================== *)
(** * More on the controls: opening, typing, submitting                   *)
(* ===================================================================== *)

Module ControlsMore.
Import Controls ControlsFacts.

(** ** The form after rendering and typing *)

Lemma render_onclick s :
  onclick <$> form (render s) =
    match state s with
    | rename => Some SubmitRename
    | newfile => Some SubmitNewFile
    | _ => None
    end.
Proof.
  unfold render. destruct (state s); try done;
    destruct (form s) as [f|]; try done; by case_decide.
Qed.

Lemma input_event_frame v s :
  state (input_event v s) = state s ∧ filename (input_event v s) = filename s.
Proof.
  unfold input_event, _onFilenameInputChange.
  destruct (form s) as [f|]; [|done].
  by destruct (render_frame (with_form (Some (mkForm (template f) v
                (bound_value f) (disabled f) (onclick f))) s)) as (-> & -> & _).
Qed.

Lemma input_event_onclick v s :
  is_Some (form s) →
  onclick <$> form (input_event v s) =
    match state s with
    | rename => Some SubmitRename
    | newfile => Some SubmitNewFile
    | _ => None
    end.
Proof.
  intros [f Hf]. unfold input_event, _onFilenameInputChange. rewrite Hf.
  by rewrite render_onclick.
Qed.

(** The state after typing [v] into a form rendered from [s]. *)
Lemma typed_form v s :
  state s = rename ∨ state s = newfile →
  ∃ f, form (input_event v (render s)) = Some f ∧
    input_value f = v ∧
    onclick f = (if decide (state s = rename) then SubmitRename
                 else SubmitNewFile) ∧
    disabled f = negb (match _project s with
                       | Some p => isValidNewFilename p v
                       | None => false
                       end) ∧
    state (input_event v (render s)) = state s ∧
    filename (input_event v (render s)) = filename s ∧
    _project (input_event v (render s)) = _project s ∧
    log (input_event v (render s)) = log s.
Proof.
  intros Hst.
  destruct (input_event_value v s Hst) as (Hval & Hdis & Hproj & Hlog).
  destruct (input_event_frame v (render s)) as (Hs & Hfn).
  destruct (render_frame s) as (Hs' & Hfn' & _).
  destruct (render_form s Hst) as (f0 & Hf0 & _).
  pose proof (input_event_onclick v (render s)) as Hclick.
  rewrite Hf0, Hs' in Hclick. specialize (Hclick (ltac:(by eexists))).
  unfold _filenameInput in Hval. unfold _submitButton_disabled in Hdis.
  destruct (form (input_event v (render s))) as [f|]; [|done].
  exists f. simpl in *. split_and!; try congruence.
  destruct Hst as [E|E]; rewrite E in *; simpl in *; congruence.
Qed.

Lemma truthy_Some v : truthy (Some v) = bool_decide (v ≠ "").
Proof.
  unfold truthy. destruct (String.eqb_spec v ""); simpl.
  - by rewrite bool_decide_eq_false_2 by (by intros ?).
  - by rewrite bool_decide_eq_true_2.
Qed.

Lemma nonempty_test v : negb (String.eqb v "") = bool_decide (v ≠ "").
Proof. apply truthy_Some. Qed.

(** Enter on an enabled new-file form. *)
Lemma keydown_newfile_log t f p :
  form t = Some f → onclick f = SubmitNewFile → disabled f = false →
  _project t = Some p →
  log (_onFilenameInputKeydown true t) =
    log t ++ [PreventDefault; SurfaceClose] ++
      (if decide (input_value f = "") then []
       else [AddFile (input_value f); NewFileEvent (input_value f)]).
Proof.
  intros Hf Hc Hd Hp. unfold _onFilenameInputKeydown, _submitButton_disabled.
  rewrite Hf. simpl. rewrite Hd. simpl.
  unfold click. simpl. rewrite Hf, Hc.
  unfold _onSubmitNewFile, _filenameInput. simpl. rewrite Hp, Hf. simpl.
  rewrite ?truthy_Some, ?nonempty_test. case_decide as Hv.
  - rewrite bool_decide_eq_false_2 by (by intros ?). simpl.
    by rewrite <-app_assoc.
  - rewrite bool_decide_eq_true_2 by done. simpl.
    by rewrite <-!app_assoc.
Qed.

(** Enter on an enabled rename form. *)
Lemma keydown_rename_log t f p old :
  form t = Some f → onclick f = SubmitRename → disabled f = false →
  _project t = Some p → filename t = Some old →
  log (_onFilenameInputKeydown true t) =
    log t ++ [PreventDefault; SurfaceClose] ++
      (if decide (old ≠ "" ∧ input_value f ≠ "")
       then [RenameFile old (input_value f)] else []).
Proof.
  intros Hf Hc Hd Hp Ho. unfold _onFilenameInputKeydown, _submitButton_disabled.
  rewrite Hf. simpl. rewrite Hd. simpl.
  unfold click. simpl. rewrite Hf, Hc.
  unfold _onSubmitRename, _filenameInput. simpl. rewrite Hp, Hf, Ho. simpl.
  rewrite ?truthy_Some, ?nonempty_test. case_decide as Hv.
  - destruct Hv. rewrite !bool_decide_eq_true_2 by done. simpl.
    by rewrite <-!app_assoc.
  - destruct (decide (old = "")) as [He|Hne].
    + rewrite (bool_decide_eq_false_2 (old ≠ "")) by (intros H; apply H, He).
      simpl. by rewrite <-app_assoc.
    + rewrite (bool_decide_eq_false_2 (input_value f ≠ "")).
      * rewrite andb_false_r. simpl. by rewrite <-app_assoc.
      * intros H. by apply Hv.
Qed.

(** ** Submitting *)

(** X18: creating a file from the keyboard.  In the new-file form of a
    connected project, after the user typed a name [v] the project
    accepts, Enter prevents the key's default, closes the surface and,
    when [v] is not empty, asks the project once to add [v] and then
    dispatches 'newFile' with [v]; an empty [v] is never passed on. *)
Theorem enter_creates_file s v p :
  state s = newfile → _project s = Some p → isValidNewFilename p v = true →
  log (_onFilenameInputKeydown true (input_event v (render s))) =
    log s ++ [PreventDefault; SurfaceClose] ++
      (if decide (v = "") then [] else [AddFile v; NewFileEvent v]).
Proof.
  intros Hst Hp Hok.
  destruct (typed_form v s) as (f & Hf & Hv & Hc & Hd & _ & _ & Hp' & Hl);
    [by right|].
  rewrite Hst in Hc. rewrite decide_False in Hc by done.
  rewrite Hp, Hok in Hd. rewrite Hp in Hp'.
  rewrite (keydown_newfile_log _ f p Hf Hc Hd Hp'). by rewrite Hl, Hv.
Qed.

Lemma enter_creates_file_witness :
  log (_onFilenameInputKeydown true
         (input_event "b.js" (render opened_newfile)))
  = [PreventDefault; SurfaceClose; AddFile "b.js"; NewFileEvent "b.js"].
Proof.
  apply (enter_creates_file opened_newfile "b.js" example_project);
    reflexivity.
Defined.

(** X19: renaming a file from the keyboard.  In the rename form opened
    for the file [old] of a connected project, after the user typed a
    name [v] the project accepts, Enter prevents the key's default,
    closes the surface and, when neither name is empty, asks the project
    once to rename [old] to [v]. *)
Theorem enter_renames_file s v p old :
  state s = rename → _project s = Some p → filename s = Some old →
  isValidNewFilename p v = true →
  log (_onFilenameInputKeydown true (input_event v (render s))) =
    log s ++ [PreventDefault; SurfaceClose] ++
      (if decide (old ≠ "" ∧ v ≠ "") then [RenameFile old v] else []).
Proof.
  intros Hst Hp Ho Hok.
  destruct (typed_form v s) as (f & Hf & Hv & Hc & Hd & _ & Hfn & Hp' & Hl);
    [by left|].
  rewrite Hst in Hc. rewrite decide_True in Hc by done.
  rewrite Hp, Hok in Hd. rewrite Hp in Hp'. rewrite Ho in Hfn.
  rewrite (keydown_rename_log _ f p old Hf Hc Hd Hp' Hfn). by rewrite Hl, Hv.
Qed.

Lemma enter_renames_file_witness :
  log (_onFilenameInputKeydown true
         (input_event "bar.html"
            (render (_onMenuSelectRename
                       (mkControls menu (Some "foo.html")
                          (Some example_project) None [])))))
  = [PreventDefault; SurfaceClose; RenameFile "foo.html" "bar.html"].
Proof.
  apply (enter_renames_file
           (_onMenuSelectRename
              (mkControls menu (Some "foo.html") (Some example_project) None []))
           "bar.html" example_project "foo.html"); reflexivity.
Defined.

(** ** Opening *)

(** X20: a form that has just been rendered into an empty surface ignores
    Enter: the submit button is rendered disabled, because the validity
    is read before the input element exists.  That holds for the rename
    form, whose input is filled with the file's name, also when the
    project would accept that name, and for the new-file form, whose
    input is empty; only an 'input' event renders the button again. *)
Theorem fresh_form_ignores_enter s enter :
  form s = None →
  _onFilenameInputKeydown enter (render s) = render s ∧
  (state s = rename →
     _filenameInput (render s) = Some (filename_or_empty s) ∧
     _submitButton_disabled (render s) = Some true) ∧
  (state s = newfile →
     _filenameInput (render s) = Some "" ∧
     _submitButton_disabled (render s) = Some true).
Proof.
  intros Hnone.
  assert (_filenameInputValid s = false) as Hinv.
  { unfold _filenameInputValid, _filenameInput. rewrite Hnone.
    by destruct (_project s). }
  assert (_submitButton_disabled (render s) ≠ Some false) as Hdis.
  { unfold render, _submitButton_disabled. rewrite Hinv, Hnone.
    by destruct (state s). }
  split_and!.
  - apply keydown_not_enabled. by intros [_ ?].
  - intros E. unfold render, _filenameInput, _submitButton_disabled.
    by rewrite E, Hnone, Hinv.
  - intros E. unfold render, _filenameInput, _submitButton_disabled.
    by rewrite E, Hnone, Hinv.
Qed.

Lemma fresh_form_ignores_enter_witness :
  let s := _onMenuSelectRename
             (mkControls menu (Some "b.js") (Some example_project) None []) in
  isValidNewFilename example_project "b.js" = true ∧
  _filenameInput (render s) = Some "b.js" ∧
  _onFilenameInputKeydown true (render s) = render s.
Proof.
  intros s.
  destruct (fresh_form_ignores_enter s true) as (Hkey & Hren & _).
  - reflexivity.
  - split_and!; [reflexivity| |exact Hkey].
    destruct Hren as [Hin _]; [reflexivity|]. exact Hin.
Defined.

(** X21: switching templates keeps the old verdict.  When the state
    becomes 'newfile' while the rename form is shown with a name the
    project accepts, the new-file form is rendered with an empty input
    but an enabled submit button; Enter then closes the surface without
    asking the project for anything. *)
Theorem stale_button_after_switch s f p :
  form s = Some f → template f = rename → state s = newfile →
  _project s = Some p → isValidNewFilename p (input_value f) = true →
  _filenameInput (render s) = Some "" ∧
  _submitButton_disabled (render s) = Some false ∧
  log (_onFilenameInputKeydown true (render s))
    = log s ++ [PreventDefault; SurfaceClose].
Proof.
  intros Hf Ht Hst Hp Hok.
  assert (_filenameInputValid s = true) as Hvalid.
  { unfold _filenameInputValid, _filenameInput. by rewrite Hp, Hf. }
  assert (form (render s)
            = Some (mkForm newfile "" "" false SubmitNewFile)) as Hform.
  { unfold render. rewrite Hst, Hf, Hvalid.
    rewrite decide_False by (rewrite Ht; done). done. }
  destruct (render_frame s) as (_ & _ & Hp' & Hl').
  split_and!.
  - unfold _filenameInput. by rewrite Hform.
  - unfold _submitButton_disabled. by rewrite Hform.
  - rewrite (keydown_newfile_log _ _ p Hform); [|done..|by rewrite Hp'].
    simpl. by rewrite Hl'.
Qed.

Lemma stale_button_after_switch_witness :
  let typed := input_event "bar.html"
                 (render (mkControls rename (Some "foo.html")
                            (Some example_project) None [])) in
  let switched := with_state newfile typed in
  _filenameInput (render switched) = Some "" ∧
  _submitButton_disabled (render switched) = Some false ∧
  log (_onFilenameInputKeydown true (render switched))
    = [PreventDefault; SurfaceClose].
Proof.
  intros typed switched.
  apply (stale_button_after_switch switched
           (mkForm rename "bar.html" "foo.html" false SubmitRename)
           example_project); reflexivity.
Defined.

(** Cancel only closes the surface. *)
Example cancel_closes_surface :
  log (_onClickCancel (input_event "b.js" (render opened_newfile)))
  = [SurfaceClose].
Proof. reflexivity. Qed.

(** ** Focus and selection after a state change *)

Lemma lastIndexOf_from_absent c (value : string) i found :
  (∀ n, String.get n value ≠ Some c) →
  lastIndexOf_from c value i found = found.
Proof.
  revert i found. induction value as [|a rest IH]; intros i found Hno; [done|].
  simpl. destruct (Ascii.eqb_spec a c) as [->|_].
  - by destruct (Hno 0%nat).
  - apply IH. intros n. apply (Hno (S n)).
Qed.

Lemma lastIndexOf_from_last c (base ext : string) i found :
  (∀ n, String.get n ext ≠ Some c) →
  lastIndexOf_from c (base +:+ String c ext) i found
    = i + Z.of_nat (String.length base).
Proof.
  intros Hno. revert i found.
  induction base as [|a rest IH]; intros i found; simpl.
  - rewrite Ascii.eqb_refl, lastIndexOf_from_absent by done. lia.
  - rewrite IH. lia.
Qed.

Lemma substring_prefix (base rest : string) :
  String.substring 0 (String.length base) (base +:+ rest) = base.
Proof.
  induction base as [|a base IH]; simpl.
  - by destruct rest.
  - by rewrite IH.
Qed.

(** X22: what [updated] does after the state changed to 'rename' and the
    form was rendered into an empty surface for a file named
    [base.ext], [ext] without a dot: it focuses the input and selects
    from 0 to the position of the last dot, which is exactly [base]; and
    once it ran, it does nothing more until the state changes again. *)
Theorem rename_form_selects_basename h (base ext : string) :
  state (ctl h) = rename → form (ctl h) = None →
  filename (ctl h) = Some (base +:+ String "." ext) →
  (∀ n, String.get n ext ≠ Some "."%char) →
  ui (updated (update true h))
    = ui h ++ [FocusInput;
               SetSelectionRange 0 (Z.of_nat (String.length base))] ∧
  String.substring 0 (String.length base) (base +:+ String "." ext) = base ∧
  updated (updated (update true h)) = updated (update true h).
Proof.
  intros Hst Hnone Hfn Hext.
  assert (filename_or_empty (ctl h) = base +:+ String "." ext) as Hfill.
  { unfold filename_or_empty. rewrite Hfn. simpl.
    by destruct base. }
  assert (_filenameInput (render (ctl h)) = Some (base +:+ String "." ext))
    as Hin.
  { unfold render, _filenameInput. by rewrite Hst, Hnone, Hfill. }
  assert (state (render (ctl h)) = rename) as Hst'
    by (destruct (render_frame (ctl h)) as (-> & _); done).
  split_and!.
  - unfold updated, update. simpl. rewrite Hst', Hin. simpl.
    unfold lastIndexOf. by rewrite lastIndexOf_from_last.
  - apply substring_prefix.
  - unfold updated at 1. unfold updated, update. simpl. done.
Qed.

Lemma rename_form_selects_basename_witness :
  ui (updated (update true
        (mkHost (_onMenuSelectRename (ctl menu_on_foo)) true true [])))
  = [FocusInput; SetSelectionRange 0 3].
Proof.
  destruct (rename_form_selects_basename
              (mkHost (_onMenuSelectRename (ctl menu_on_foo)) true true [])
              "foo" "html") as (Hui & _ & _).
  - reflexivity.
  - reflexivity.
  - reflexivity.
  - intros n. by do 5 (destruct n as [|n]; [discriminate|]).
  - exact Hui.
Defined.

(** A name without a dot: the selection's end is -1. *)
Example rename_form_no_dot :
  ui (updated (update true
        (mkHost (mkControls rename (Some "README") None None []) true false [])))
  = [FocusInput; SetSelectionRange 0 (-1)].
Proof. reflexivity. Qed.

End ControlsMore.

(* ===================================================================== *)
(** * The menu button                                                     *)
(* ===================================================================== *)

Module FileMenuFacts.
Import FileTabBar FileTabBarFacts FileMenu.

(** X23: the menu button of a tab opens the controls for that tab's file.
    With the controls rendered, the handler ends normally exactly when a
    visible file carries the tab's [panel] name; the controls are then in
    state 'menu' with that name as filename and the button as anchor, and
    the click is not propagated.  Otherwise the handler throws after it
    has put the controls in state 'menu': they keep the filename and the
    anchor they had, and the click propagates. *)
Theorem menu_button_names_tab_file button panel s c :
  (completion (_onClickMenuButton button panel s (Some c)) = Normal ↔
     ∃ f, f ∈ _visibleFiles s ∧ name f = panel) ∧
  (completion (_onClickMenuButton button panel s (Some c)) = Normal →
     _onClickMenuButton button panel s (Some c)
       = mkClicked
           (Some (mkHandle
                    (Controls.with_filename (Some panel)
                       (Controls.with_state Controls.menu (controls c)))
                    (Some button)))
           true Normal) ∧
  (completion (_onClickMenuButton button panel s (Some c)) = Throws →
     _onClickMenuButton button panel s (Some c)
       = mkClicked
           (Some (mkHandle (Controls.with_state Controls.menu (controls c))
                    (anchorElement c)))
           false Throws).
Proof.
  unfold _onClickMenuButton.
  destruct (Z.ltb_spec (findIndex panel (_visibleFiles s)) 0) as [Hneg|Hge].
  - simpl. split_and!; [|done..]. split; [done|].
    intros (f & Hf & Hn). exfalso.
    apply list_elem_of_lookup_1 in Hf as [k Hk].
    pose proof (findIndex_le panel _ k f Hk Hn). lia.
  - destruct (findIndex_nonneg_inv panel _ Hge) as (g & Hg & Hn).
    rewrite Hg. simpl. rewrite Hn. split_and!; [|done..].
    split; [|done]. intros _. exists g. split; [|done].
    by eapply list_elem_of_lookup_2.
Qed.

(** The tab's file has been hidden in the meantime: the controls go to
    state 'menu' but still name "a.js". *)
Example menu_button_on_hidden_file :
  _onClickMenuButton 7%nat "secret.js"
    (mkState (Some [a_js; secret_js]) "a.js" 0)
    (Some (mkHandle
             (Controls.mkControls Controls.closed (Some "a.js") None None [])
             None))
  = mkClicked
      (Some (mkHandle
               (Controls.mkControls Controls.menu (Some "a.js") None None [])
               None))
      false Throws.
Proof. reflexivity. Qed.

(** The add button on closed controls: they go to state 'newfile',
    anchored at the button, and the click is not propagated. *)
Example add_button_opens_newfile :
  _onClickAddFile 9%nat
    (Some (mkHandle
             (Controls.mkControls Controls.closed (Some "a.js") None None [])
             None))
  = mkClicked
      (Some (mkHandle
               (Controls.mkControls Controls.newfile (Some "a.js") None None [])
               (Some 9%nat)))
      true Normal.
Proof. reflexivity. Qed.

End FileMenuFacts.
